(** * BearTech bot: the request dispatch and delivery layer of
    [start_production.py]

    A shallow embedding of the handlers nested in [run_bot] and of the two
    pure helpers [is_contract_address] and [split_message], with the
    properties of the specification stated over them.

    Conventions.
    - A Python [str] is a list of characters.  Characters are the code points
      U+0000..U+00FF, one [ascii] each.
    - A Python [int] is a [Z]; [len] returns a [Z].
    - The [set] of analysing users is a [gset Z].
    - A handler is a computation in a state-and-exception monad; its state
      holds the shared set, the history of effects and the log.  A handler
      runs from its first statement to its last on that state: how the event
      loop interleaves several handlers at their [await]s is not modelled. *)

From Stdlib Require Import ZArith List Ascii String Bool Lia.
From stdpp Require Import base tactics option list gmap.
Import ListNotations.

#[local] Open Scope Z_scope.
#[local] Open Scope list_scope.

(** ** Python strings *)

Module PyStr.

Definition str : Type := list ascii.

(** A literal. *)
Definition py (s : string) : str := list_ascii_of_string s.

Definition code (c : ascii) : Z := Z.of_N (N_of_ascii c).

(** The newline character, ['\n']. *)
Definition nl : ascii := ascii_of_N 10.

(** [len(s)] *)
Definition len (s : str) : Z := Z.of_nat (length s).

(** Truth value of a string: [if s:] *)
Definition truthy (s : str) : bool :=
  match s with [] => false | _ :: _ => true end.

(** [str.isspace] on one character, for code points below 256. *)
Definition is_space (c : ascii) : bool :=
  let n := code c in
  ((9 <=? n) && (n <=? 13)) || ((28 <=? n) && (n <=? 32))
  || (n =? 133) || (n =? 160).

Fixpoint lstrip (s : str) : str :=
  match s with
  | [] => []
  | c :: s' => if is_space c then lstrip s' else s
  end.

Definition rstrip (s : str) : str := rev (lstrip (rev s)).

(** [s.strip()] *)
Definition strip (s : str) : str := rstrip (lstrip s).

(** [s.startswith(p)] *)
Fixpoint startswith (p s : str) : bool :=
  match p, s with
  | [], _ => true
  | _ :: _, [] => false
  | a :: p', b :: s' => Ascii.eqb a b && startswith p' s'
  end.

(** [s.split(sep, maxsplit)] for a separator of one character; a negative
    [maxsplit] puts no limit on the number of splits. *)
Fixpoint split (sep : ascii) (maxsplit : Z) (s : str) : list str :=
  match s with
  | [] => [[]]
  | c :: s' =>
      if Ascii.eqb c sep && negb (maxsplit =? 0) then
        [] :: split sep (maxsplit - 1) s'
      else
        match split sep maxsplit s' with
        | [] => [[c]]
        | p :: ps => (c :: p) :: ps
        end
  end.

(** [sep.join(parts)] for a separator of one character. *)
Fixpoint join (sep : ascii) (parts : list str) : str :=
  match parts with
  | [] => []
  | [p] => p
  | p :: ps => p ++ sep :: join sep ps
  end.

(** The index a slice bound [m] denotes in [s]: negative bounds count from
    the end, and every bound is clamped to [0 .. len(s)]. *)
Definition slice_bound (s : str) (m : Z) : nat :=
  if m <? 0 then Z.to_nat (Z.max 0 (len s + m))
  else Z.to_nat (Z.min m (len s)).

(** [s[:m]] *)
Definition slice_to (s : str) (m : Z) : str := firstn (slice_bound s m) s.

(** [s[m:]] *)
Definition slice_from (s : str) (m : Z) : str := skipn (slice_bound s m) s.

(** *** [int(s, 16)]

    The steps of CPython's [PyLong_FromUnicodeObject] and
    [PyLong_FromString] for base 16. *)

(** Value of a character as a digit below 16. *)
Definition hex_digit_value (c : ascii) : option Z :=
  let n := code c in
  if (48 <=? n) && (n <=? 57) then Some (n - 48)
  else if (97 <=? n) && (n <=? 102) then Some (n - 87)
  else if (65 <=? n) && (n <=? 70) then Some (n - 55)
  else None.

Definition is_hex_digit (c : ascii) : bool :=
  match hex_digit_value c with Some _ => true | None => false end.

(** Characters from 127 on are replaced: white space by a blank, anything
    else (no decimal digit lives in this range) by ['?'], which also ends
    the text. *)
Fixpoint to_ascii_digits (s : str) : str :=
  match s with
  | [] => []
  | c :: s' =>
      if code c <? 127 then c :: to_ascii_digits s'
      else if is_space c then " "%char :: to_ascii_digits s'
      else ["?"%char]
  end.

(** [Py_ISSPACE] *)
Definition c_isspace (c : ascii) : bool :=
  let n := code c in ((9 <=? n) && (n <=? 13)) || (n =? 32).

Fixpoint skip_spaces (s : str) : str :=
  match s with
  | [] => []
  | c :: s' => if c_isspace c then skip_spaces s' else s
  end.

Definition skip_sign (s : str) : Z * str :=
  match s with
  | c :: s' =>
      if Ascii.eqb c "+" then (1, s')
      else if Ascii.eqb c "-" then (-1, s')
      else (1, s)
  | [] => (1, s)
  end.

(** An optional [0x] or [0X], and one underscore after it. *)
Definition skip_prefix16 (s : str) : str :=
  match s with
  | z :: x :: s' =>
      if Ascii.eqb z "0" && (Ascii.eqb x "x" || Ascii.eqb x "X") then
        match s' with
        | u :: s'' => if Ascii.eqb u "_" then s'' else s'
        | [] => s'
        end
      else s
  | _ => s
  end.

(** The digit scan: digits and single underscores between them.  Returns the
    value, the number of digits read and the unread rest, or [None] for a
    doubled or trailing underscore. *)
Fixpoint scan_digits (prev_underscore : bool) (acc : Z) (digits : nat)
    (s : str) : option (Z * nat * str) :=
  match s with
  | [] => if prev_underscore then None else Some (acc, digits, [])
  | c :: s' =>
      match hex_digit_value c with
      | Some d => scan_digits false (16 * acc + d) (S digits) s'
      | None =>
          if Ascii.eqb c "_" then
            if prev_underscore then None else scan_digits true acc digits s'
          else
            if prev_underscore then None else Some (acc, digits, s)
      end
  end.

(** [int(s, 16)]: the value, or [None] where Python raises [ValueError]. *)
Definition int16 (s : str) : option Z :=
  let s1 := skip_spaces (to_ascii_digits s) in
  let '(sign, s2) := skip_sign s1 in
  let s3 := skip_prefix16 s2 in
  if startswith ["_"%char] s3 then None
  else
    match scan_digits false 0 0%nat s3 with
    | None => None
    | Some (v, digits, rest) =>
        if Nat.eqb digits 0 then None
        else match skip_spaces rest with
             | [] => Some (sign * v)
             | _ :: _ => None
             end
    end.

End PyStr.

Import PyStr.

(** ** The pure helpers *)

(** [is_contract_address(text)].  The argument is a [str], so the
    [isinstance] test holds and only the emptiness test remains. *)
Definition is_contract_address (text : str) : bool :=
  if negb (truthy text) then false
  else
    let text := strip text in
    if negb (startswith (py "0x") text) then false
    else if negb (len text =? 42) then false
    else
      match int16 (skipn 2 text) with
      | Some _ => true
      | None => false
      end.

(** One iteration of the loop of [split_message], on the pair
    [(chunks, current_chunk)]. *)
Definition split_step (max_length : Z) (st : list str * str) (line : str)
    : list str * str :=
  let '(chunks, current_chunk) := st in
  if len (current_chunk ++ line ++ [nl]) >? max_length then
    if truthy current_chunk then
      (chunks ++ [strip current_chunk], line ++ [nl])
    else
      (chunks ++ [slice_to line max_length],
       slice_from line max_length ++ [nl])
  else
    (chunks, current_chunk ++ line ++ [nl]).

(** [split_message(message, max_length)] *)
Definition split_message (message : str) (max_length : Z) : list str :=
  let '(chunks, current_chunk) :=
    fold_left (split_step max_length) (split nl (-1) message) ([], []) in
  if truthy (strip current_chunk) then chunks ++ [strip current_chunk]
  else chunks.

(** The callback data of the refresh button, [f"refresh:{address}"]. *)
Definition refresh_callback_data (address : str) : str :=
  py "refresh:" ++ address.

(** ** Effects

    What a handler can do: talk to the transport, call the analyzer, change
    the set of analysing users, write to the log, and raise. *)

(** A raised exception: whether [except Exception] catches it (it does not
    catch a cancellation or an interrupt), and [str(e)]. *)
Record Exn := { catchable : bool; exn_text : str }.

Inductive Outcome (A : Type) : Type :=
| Ok (a : A)
| Raise (e : Exn).
Arguments Ok {A} a.
Arguments Raise {A} e.

(** The texts the handlers send.  The fixed literals are named; [Plain] is a
    text computed at run time. *)
Inductive Text :=
| UsagePrompt
| InvalidAddressPrompt
| AlreadyInProgress
| AnalyzingStatus (address : str)
| AnalysisFailed (address error : str)
| AnalysisErrorNotice
| FormatErrorNotice
| SendErrorNotice
| QuickActions
| Refreshing (address : str)
| RefreshErrorNotice
| CallbackErrorNotice
| Plain (s : str).

(* The formatting options of a message (parse mode, link preview) are fixed
   by its text and are left out. *)

Inductive Button :=
| UrlButton (url : str)
| CallbackButton (callback_data : str).

Definition Keyboard : Type := list (list Button).

(** One effect.  A message sent by [ReplyText] is later referred to by the
    position of that event in the history.  The two changes of the set are
    recorded as well, so that their place among the calls can be stated. *)
Inductive Event :=
| ReplyText (t : Text)
| EditText (message_ref : nat) (t : Text)
| SendMessage (chat_id : Z) (t : Text) (reply_markup : option Keyboard)
| AnswerQuery
| EditQueryMessage (t : Text)
| AnalyzeToken (address : str)
| GuardAdd (user_id : Z)
| GuardDiscard (user_id : Z).

Inductive LogLine :=
| LogAnalysisError (e : str)
| LogTokenAnalysisError (e : str)
| LogSendResultsError (e : str)
| LogLongMessageError (e : str)
| LogButtonsError (e : str)
| LogCallbackError (e : str)
| LogRefreshError (e : str).

(** The collaborators and the configuration, none of which this file of the
    repository defines.  The analyzer and the transport answer from the
    history so far, so that the same call can succeed once and fail later. *)
Record Env (AnalysisResult Response Chain : Type) := {
  MAX_MESSAGE_LENGTH : Z;
  analyze_token : list Event -> str -> Outcome AnalysisResult;
  format_token_analysis : AnalysisResult -> Outcome Response;
  to_telegram_message : Response -> Outcome str;
  (* [hasattr(response, 'basic_info') and response.basic_info.chain] *)
  basic_info_chain : Response -> Outcome (option Chain);
  get_explorer_url : Chain -> str -> Outcome str;
  (* [Some e]: the call raises [e] *)
  transport : list Event -> Event -> option Exn
}.
Arguments MAX_MESSAGE_LENGTH {_ _ _} _.
Arguments analyze_token {_ _ _} _ _ _.
Arguments format_token_analysis {_ _ _} _ _.
Arguments to_telegram_message {_ _ _} _ _.
Arguments basic_info_chain {_ _ _} _ _.
Arguments get_explorer_url {_ _ _} _ _ _.
Arguments transport {_ _ _} _ _ _.

Record State := {
  analyzing_users : gset Z;
  history : list Event;
  log : list LogLine
}.

(** The inbound event, as far as the handlers read it. *)
Record Update := {
  effective_user : option Z;
  effective_chat_id : Z;
  message_text : str;
  callback_data : str
}.

(** *** The monad *)

Definition M (A : Type) : Type := State -> Outcome A * State.

#[global] Instance M_ret : MRet M := fun A a st => (Ok a, st).

#[global] Instance M_bind : MBind M := fun A B k m st =>
  match m st with
  | (Ok a, st') => k a st'
  | (Raise e, st') => (Raise e, st')
  end.

Definition lift {A : Type} (o : Outcome A) : M A := fun st => (o, st).

(** [try: body / except Exception as e: handler] *)
Definition try_except {A : Type} (body : M A) (handler : Exn -> M A) : M A :=
  fun st =>
    match body st with
    | (Ok a, st') => (Ok a, st')
    | (Raise e, st') =>
        if catchable e then handler e st' else (Raise e, st')
    end.

(** [try: body / finally: cleanup] *)
Definition try_finally {A : Type} (body : M A) (cleanup : M unit) : M A :=
  fun st =>
    let '(r, st') := body st in
    match cleanup st' with
    | (Ok _, st'') => (r, st'')
    | (Raise e, st'') => (Raise e, st'')
    end.

Definition record_event (e : Event) (st : State) : State :=
  {| analyzing_users := analyzing_users st;
     history := history st ++ [e];
     log := log st |}.

(** [logger.error(...)] *)
Definition log_error (l : LogLine) : M unit := fun st =>
  (Ok tt, {| analyzing_users := analyzing_users st;
             history := history st;
             log := log st ++ [l] |}).

(** [user_id in analyzing_users] *)
Definition guard_contains (user_id : Z) : M bool := fun st =>
  (Ok (bool_decide (user_id ∈ analyzing_users st)), st).

(** [analyzing_users.add(user_id)] *)
Definition guard_add (user_id : Z) : M unit := fun st =>
  (Ok tt, {| analyzing_users := {[user_id]} ∪ analyzing_users st;
             history := history st ++ [GuardAdd user_id];
             log := log st |}).

(** [analyzing_users.discard(user_id)] *)
Definition guard_discard (user_id : Z) : M unit := fun st =>
  (Ok tt, {| analyzing_users := analyzing_users st ∖ {[user_id]};
             history := history st ++ [GuardDiscard user_id];
             log := log st |}).

(** [l[i]] *)
Definition getitem {A : Type} (l : list A) (i : nat) : Outcome A :=
  match nth_error l i with
  | Some a => Ok a
  | None =>
      Raise {| catchable := true; exn_text := py "list index out of range" |}
  end.

(** [update.effective_user.id] *)
Definition effective_user_id (update : Update) : Outcome Z :=
  match effective_user update with
  | Some user_id => Ok user_id
  | None =>
      Raise {| catchable := true;
               exn_text := py "'NoneType' object has no attribute 'id'" |}
  end.

(** ** The handlers *)

Section Handlers.

Context {AnalysisResult Response Chain : Type}.
Variable env : Env AnalysisResult Response Chain.

(** A call to the transport: recorded, then answered. *)
Definition perform (e : Event) : M nat := fun st =>
  match transport env (history st) e with
  | None => (Ok (length (history st)), record_event e st)
  | Some x => (Raise x, record_event e st)
  end.

(** [await update.message.reply_text(...)]; the result is the sent message. *)
Definition reply_text (t : Text) : M nat := perform (ReplyText t).

(** [await status_message.edit_text(...)] *)
Definition edit_text (status_message : nat) (t : Text) : M unit :=
  perform (EditText status_message t);; mret tt.

(** [await context.bot.send_message(chat_id=..., text=..., ...)] *)
Definition send_message (chat_id : Z) (t : Text)
    (reply_markup : option Keyboard) : M unit :=
  perform (SendMessage chat_id t reply_markup);; mret tt.

(** [await query.answer()] *)
Definition answer_query : M unit := perform AnswerQuery;; mret tt.

(** [await query.edit_message_text(...)] *)
Definition edit_query_message (t : Text) : M unit :=
  perform (EditQueryMessage t);; mret tt.

(** [await token_analyzer.analyze_token(address)] *)
Definition call_analyze_token (address : str) : M AnalysisResult := fun st =>
  (analyze_token env (history st) address,
   record_event (AnalyzeToken address) st).

(** The loop of [send_long_message] from index [i] on. *)
Fixpoint send_chunks (update : Update) (i : nat) (chunks : list str)
    : M unit :=
  match chunks with
  | [] => mret tt
  | chunk :: rest =>
      (if Nat.eqb i 0 then reply_text (Plain chunk);; mret tt
       else send_message (effective_chat_id update) (Plain chunk) None);;
      send_chunks update (S i) rest
  end.

Definition send_long_message (update : Update) (message : str) : M unit :=
  try_except
    (let chunks := split_message message (MAX_MESSAGE_LENGTH env - 100) in
     send_chunks update 0 chunks)
    (fun e =>
       log_error (LogLongMessageError (exn_text e));;
       reply_text SendErrorNotice;; mret tt).

Definition add_action_buttons (update : Update) (address : str)
    (response : Response) : M unit :=
  try_except
    (chain ← lift (basic_info_chain env response);
     keyboard ← match chain with
                | Some chain =>
                    explorer_url ← lift (get_explorer_url env chain address);
                    mret [[UrlButton explorer_url]]
                | None => mret []
                end;
     let keyboard :=
       keyboard ++ [[CallbackButton (refresh_callback_data address)]] in
     match keyboard with
     | [] => mret tt
     | _ :: _ =>
         send_message (effective_chat_id update) QuickActions (Some keyboard)
     end)
    (fun e => log_error (LogButtonsError (exn_text e))).

Definition send_analysis_results (update : Update) (response : Response)
    (address : str) : M unit :=
  try_except
    (message ← lift (to_telegram_message env response);
     (if len message >? MAX_MESSAGE_LENGTH env then
        send_long_message update message
      else
        reply_text (Plain message);; mret tt);;
     add_action_buttons update address response)
    (fun e =>
       log_error (LogSendResultsError (exn_text e));;
       reply_text FormatErrorNotice;; mret tt).

(** The part of [analyze_token_address] that runs once the user has been
    added to the set. *)
Definition analysis_session (update : Update) (address : str) (user_id : Z)
    : M unit :=
  status_message ← reply_text (AnalyzingStatus address);
  try_finally
    (try_except
       (analysis_result ← call_analyze_token address;
        formatted_response ←
          lift (format_token_analysis env analysis_result);
        send_analysis_results update formatted_response address)
       (fun e =>
          log_error (LogAnalysisError (exn_text e));;
          edit_text status_message (AnalysisFailed address (exn_text e))))
    (guard_discard user_id).

Definition analyze_token_address (update : Update) (address : str) : M unit :=
  try_except
    (user_id ← lift (effective_user_id update);
     busy ← guard_contains user_id;
     if (busy : bool) then
       reply_text AlreadyInProgress;; mret tt
     else
       guard_add user_id;;
       analysis_session update address user_id)
    (fun e =>
       log_error (LogTokenAnalysisError (exn_text e));;
       reply_text AnalysisErrorNotice;; mret tt).

(** [analyze_command], with [context.args] as [args]. *)
Definition analyze_command (update : Update) (args : list str) : M unit :=
  match args with
  | [] => reply_text UsagePrompt;; mret tt
  | _ :: _ =>
      address ← lift (getitem args 0);
      analyze_token_address update address
  end.

Definition handle_message (update : Update) : M unit :=
  let message_text := strip (message_text update) in
  if is_contract_address message_text then
    analyze_token_address update message_text
  else
    reply_text InvalidAddressPrompt;; mret tt.

Definition handle_refresh_callback (update : Update) (address : str)
    : M unit :=
  try_except
    (edit_query_message (Refreshing address);;
     analysis_result ← call_analyze_token address;
     formatted_response ← lift (format_token_analysis env analysis_result);
     message ← lift (to_telegram_message env formatted_response);
     edit_query_message (Plain message))
    (fun e =>
       log_error (LogRefreshError (exn_text e));;
       edit_query_message RefreshErrorNotice).

(** The address a callback payload carries: [data.split(":", 1)[1]]. *)
Definition callback_address (data : str) : Outcome str :=
  getitem (split ":"%char 1 data) 1.

Definition handle_callback_query (update : Update) : M unit :=
  try_except
    (answer_query;;
     let data := callback_data update in
     if startswith (py "refresh:") data then
       address ← lift (callback_address data);
       handle_refresh_callback update address
     else mret tt)
    (fun e =>
       log_error (LogCallbackError (exn_text e));;
       edit_query_message CallbackErrorNotice).

End Handlers.

(** ** Notions the statements use *)

(** A string is left alone by [strip] exactly when neither end is white
    space. *)
Definition ends_ok (s : str) : Prop := lstrip s = s /\ lstrip (rev s) = rev s.

(** Lines followed by their newline, as the loop accumulates them. *)
Definition unlines (ls : list str) : str :=
  concat (map (fun l => l ++ [nl]) ls).

(** The address predicate in the words of the specification: the text trims
    to exactly 42 characters, starts with [0x], and the other 40 characters
    are hexadecimal digits of either case. *)
Definition spec_is_valid_address (text : str) : bool :=
  let t := strip text in
  (len t =? 42) && startswith (py "0x") t && forallb is_hex_digit (skipn 2 t).

(** The events by which a formatted text reaches the user: one reply when it
    fits, else the chunks in order, the first as a reply and the others as
    new messages to the chat. *)
Definition delivery_events (max_message_length chat_id : Z) (message : str)
    : list Event :=
  if len message >? max_message_length then
    match split_message message (max_message_length - 100) with
    | [] => []
    | chunk :: rest =>
        ReplyText (Plain chunk)
        :: map (fun c => SendMessage chat_id (Plain c) None) rest
    end
  else [ReplyText (Plain message)].

Definition is_edit (e : Event) : bool :=
  match e with EditText _ _ => true | _ => false end.

Definition is_guard_event (e : Event) : bool :=
  match e with GuardAdd _ | GuardDiscard _ => true | _ => false end.

(** The events the delivery of a result can perform: replies with the text,
    a chunk or an error notice, further chunks and the action panel. *)
Definition delivery_event (e : Event) : Prop :=
  match e with
  | ReplyText (Plain _) | ReplyText FormatErrorNotice
  | ReplyText SendErrorNotice => True
  | SendMessage _ (Plain _) None | SendMessage _ QuickActions (Some _) => True
  | _ => False
  end.

(** The events one call of [analyze_token_address] for [address] can
    perform. *)
Definition session_event (address : str) (e : Event) : Prop :=
  match e with
  | GuardAdd _ | GuardDiscard _ => True
  | ReplyText AlreadyInProgress | ReplyText AnalysisErrorNotice => True
  | ReplyText (AnalyzingStatus a) | AnalyzeToken a => a = address
  | EditText _ (AnalysisFailed a _) => a = address
  | _ => delivery_event e
  end.

(** The state with more events in its history. *)
Definition emit (evs : list Event) (st : State) : State :=
  {| analyzing_users := analyzing_users st;
     history := history st ++ evs;
     log := log st |}.

(** A computation only appends to the history, and what it appends
    satisfies [P]. *)
Definition appends {A : Type} (P : Event -> Prop) (m : M A) : Prop :=
  forall st, exists evs,
    history (m st).2 = history st ++ evs /\ Forall P evs.

(** A computation leaves the set of analysing users as it found it. *)
Definition keeps_users {A : Type} (m : M A) : Prop :=
  forall st, analyzing_users (m st).2 = analyzing_users st.

(** A line the chunker passes through unchanged: not empty, no white space
    at either end, and shorter than the limit. *)
Definition clean_line (max_length : Z) (l : str) : Prop :=
  l <> [] /\ strip l = l /\ len l < max_length.

(** The accumulator between two iterations of the loop of [split_message]
    on clean lines: empty, or some text with clean ends and its newline. *)
Definition open_chunk (current_chunk : str) : Prop :=
  current_chunk = [] \/
  exists x, current_chunk = x ++ [nl] /\ x <> [] /\ ends_ok x.

Definition not_space (c : ascii) : bool := negb (is_space c).

(** The call by which [send_long_message] sends the chunk at index [i]. *)
Definition chunk_event (update : Update) (i : nat) (chunk : str) : Event :=
  if Nat.eqb i 0 then ReplyText (Plain chunk)
  else SendMessage (effective_chat_id update) (Plain chunk) None.

(** The calls for the chunks from index [i] on, in order. *)
Fixpoint chunk_events (update : Update) (i : nat) (chunks : list str)
    : list Event :=
  match chunks with
  | [] => []
  | chunk :: rest =>
      chunk_event update i chunk :: chunk_events update (S i) rest
  end.

(** A computed text handed to the transport has at most [limit]
    characters. *)
Definition within_limit (limit : Z) (e : Event) : Prop :=
  match e with
  | ReplyText (Plain s) | SendMessage _ (Plain s) _ => len s <= limit
  | _ => True
  end.

(** The events a refresh of [address] can perform: edits of the message the
    button sits on, and the analyzer call. *)
Definition refresh_event (address : str) (e : Event) : Prop :=
  match e with
  | EditQueryMessage (Refreshing a) | AnalyzeToken a => a = address
  | EditQueryMessage (Plain _) | EditQueryMessage RefreshErrorNotice => True
  | _ => False
  end.

(** An outcome that is not an exception [except Exception] would catch. *)
Definition no_exception {A : Type} (o : Outcome A) : Prop :=
  match o with
  | Ok _ => True
  | Raise e => catchable e = false
  end.

(** The characters [int(s, 16)] can read: digits, the [x] of a prefix, a
    sign, an underscore and the blanks of [Py_ISSPACE]. *)
Definition literal_char (c : ascii) : bool :=
  is_hex_digit c || c_isspace c
  || Ascii.eqb c "+" || Ascii.eqb c "-" || Ascii.eqb c "_"
  || Ascii.eqb c "x" || Ascii.eqb c "X".

(** The characters an accepted address can be made of: those of a literal,
    and white space. *)
Definition address_char (c : ascii) : bool := literal_char c || is_space c.

(** The state with another set of analysing users. *)
Definition with_users (users : gset Z) (st : State) : State :=
  {| analyzing_users := users; history := history st; log := log st |}.

(** A computation that does not read the set of analysing users: run on
    another set, it gives the same outcome, history and log. *)
Definition ignores_users {A : Type} (m : M A) : Prop :=
  forall users st,
    m (with_users users st) = ((m st).1, with_users users (m st).2).

(** What an [except Exception] clause whose handler sends [notice] adds to
    the history after a call that raised, or did not. *)
Definition notice_after (raised : option Exn) (notice : Event) : list Event :=
  match raised with
  | Some x => if catchable x then [notice] else []
  | None => []
  end.

(** A computation whose first effect is [e]. *)
Definition starts_with {A : Type} (e : Event) (m : M A) : Prop :=
  forall st, exists rest, history (m st).2 = history st ++ e :: rest.

(** More sample inputs: a text of three lines of 99 characters, a transport
    that delivers replies but no new message with a computed text, a state
    in which the sample user is analysing, and updates without a user and
    from a pressed button. *)
Module Sample2.

Definition busy : State :=
  {| analyzing_users := {[7]}; history := []; log := [] |}.

Definition anonymous_update : Update :=
  {| effective_user := None;
     effective_chat_id := 70;
     message_text := [];
     callback_data := [] |}.

Definition button_update (data : str) : Update :=
  {| effective_user := Some 7;
     effective_chat_id := 70;
     message_text := [];
     callback_data := data |}.

Definition long_line : str := repeat "a"%char 99.

Definition three_lines : str := join nl [long_line; long_line; long_line].

Definition transport_drops_messages : list Event -> Event -> option Exn :=
  fun _ e =>
    match e with
    | SendMessage _ (Plain _) _ =>
        Some {| catchable := true; exn_text := py "Timed out" |}
    | _ => None
    end.

End Sample2.

(** ** Sample collaborators and inputs *)

Module Sample.

Definition idle : State :=
  {| analyzing_users := ∅; history := []; log := [] |}.

Definition network_error : Exn :=
  {| catchable := true; exn_text := py "Timed out" |}.

Definition api_error : Exn :=
  {| catchable := true; exn_text := py "upstream unavailable" |}.

(** An analyzer that answers with a fixed report, and one that is down. *)
Definition analyzer_up (report : str) : list Event -> str -> Outcome str :=
  fun _ _ => Ok report.

Definition analyzer_down : list Event -> str -> Outcome str :=
  fun _ _ => Raise api_error.

(** A transport that delivers everything, and one that fails to deliver the
    status placeholder. *)
Definition transport_up : list Event -> Event -> option Exn :=
  fun _ _ => None.

Definition transport_drops_status : list Event -> Event -> option Exn :=
  fun _ e =>
    match e with
    | ReplyText (AnalyzingStatus _) => Some network_error
    | _ => None
    end.

(** Results and responses are plain texts; no chain is known. *)
Definition env (max_message_length : Z)
    (analyzer : list Event -> str -> Outcome str)
    (transport : list Event -> Event -> option Exn) : Env str str unit :=
  {| MAX_MESSAGE_LENGTH := max_message_length;
     analyze_token := analyzer;
     format_token_analysis := Ok;
     to_telegram_message := Ok;
     basic_info_chain := fun _ => Ok None;
     get_explorer_url := fun _ address => Ok address;
     transport := transport |}.

Definition user : Z := 7.
Definition chat : Z := 70.

Definition text_update (text : str) : Update :=
  {| effective_user := Some user;
     effective_chat_id := chat;
     message_text := text;
     callback_data := [] |}.

Definition token : str := py "0x1234567890abcdef1234567890abcdef12345678".

(** 42 characters, a sign after the prefix. *)
Definition signed_token : str :=
  py "0x+1234567890abcdef1234567890abcdef1234567".

Definition two_lines (a b : string) : str := py a ++ nl :: py b.

End Sample.

Import Sample.

(** ** Facts about strings *)

Section StringFacts.

Lemma len_nonneg (s : str) : 0 <= len s.
Proof. unfold len. lia. Qed.

Lemma len_app (s t : str) : len (s ++ t) = len s + len t.
Proof. unfold len. rewrite length_app. lia. Qed.

Lemma len_nil_iff (s : str) : len s = 0 <-> s = [].
Proof. unfold len. destruct s; simpl; split; intros H; try done; lia. Qed.

Lemma truthy_true_iff (s : str) : truthy s = true <-> s <> [].
Proof. destruct s; simpl; split; intros H; congruence. Qed.

Lemma truthy_false_iff (s : str) : truthy s = false <-> s = [].
Proof. destruct s; simpl; split; intros H; congruence. Qed.

Lemma is_space_nl : is_space nl = true.
Proof. reflexivity. Qed.

(** [lstrip] removes a prefix of white space. *)
Lemma lstrip_app (s t : str) :
  lstrip (s ++ t) = if forallb is_space s then lstrip t else lstrip s ++ t.
Proof.
  induction s as [|c s IH]; simpl; [done|].
  destruct (is_space c); simpl; [exact IH | done].
Qed.

Lemma lstrip_length (s : str) : (length (lstrip s) <= length s)%nat.
Proof.
  induction s as [|c s IH]; simpl; [lia|].
  destruct (is_space c); simpl; lia.
Qed.

Lemma lstrip_fixed_of_length (s : str) :
  length (lstrip s) = length s -> lstrip s = s.
Proof.
  destruct s as [|c s]; simpl; [done|].
  destruct (is_space c); [|done].
  pose proof (lstrip_length s). simpl. lia.
Qed.

Lemma rstrip_length (s : str) : (length (rstrip s) <= length s)%nat.
Proof.
  unfold rstrip. rewrite length_rev.
  pose proof (lstrip_length (rev s)) as H. rewrite length_rev in H. exact H.
Qed.

Lemma strip_length (s : str) : (length (strip s) <= length s)%nat.
Proof.
  unfold strip. pose proof (rstrip_length (lstrip s)).
  pose proof (lstrip_length s). lia.
Qed.

Lemma len_strip_le (s : str) : len (strip s) <= len s.
Proof. unfold len. pose proof (strip_length s). lia. Qed.

Lemma rstrip_app_space (s : str) (c : ascii) :
  is_space c = true -> rstrip (s ++ [c]) = rstrip s.
Proof.
  intros Hc. unfold rstrip. rewrite rev_app_distr. simpl. by rewrite Hc.
Qed.

Lemma lstrip_all_space (s : str) :
  forallb is_space s = true -> lstrip s = [].
Proof.
  induction s as [|c s IH]; simpl; [done|].
  destruct (is_space c); simpl; [exact IH | done].
Qed.

(** White space appended to a string is stripped again. *)
Lemma strip_app_space (s : str) (c : ascii) :
  is_space c = true -> strip (s ++ [c]) = strip s.
Proof.
  intros Hc. unfold strip. rewrite lstrip_app.
  destruct (forallb is_space s) eqn:Hs.
  - rewrite (lstrip_all_space s Hs). simpl. by rewrite Hc.
  - by apply rstrip_app_space.
Qed.

Lemma ends_ok_strip (s : str) : ends_ok s -> strip s = s.
Proof.
  intros [Hl Hr]. unfold strip, rstrip. rewrite Hl, Hr. apply rev_involutive.
Qed.

Lemma strip_ends_ok (s : str) : strip s = s -> ends_ok s.
Proof.
  intros H.
  assert (Hl : lstrip s = s).
  { apply lstrip_fixed_of_length.
    pose proof (lstrip_length s). pose proof (rstrip_length (lstrip s)) as Hr.
    unfold strip in H. rewrite H in Hr. lia. }
  split; [exact Hl|].
  unfold strip in H. rewrite Hl in H. unfold rstrip in H.
  rewrite <- H at 2. by rewrite rev_involutive.
Qed.

Lemma lstrip_cons_fixed (c : ascii) (s t : str) :
  lstrip (c :: s) = c :: s -> lstrip ((c :: s) ++ t) = (c :: s) ++ t.
Proof.
  simpl. destruct (is_space c) eqn:Hc; [|done].
  intros H. pose proof (lstrip_length s) as Hlen. rewrite H in Hlen.
  simpl in Hlen. lia.
Qed.

(** Two strings with clean ends stay clean around any middle part. *)
Lemma ends_ok_app (x m y : str) :
  x <> [] -> y <> [] -> ends_ok x -> ends_ok y -> ends_ok (x ++ m ++ y).
Proof.
  intros Hx Hy [Hxl _] [_ Hyr]. split.
  - destruct x as [|c x]; [done|]. by apply lstrip_cons_fixed.
  - rewrite !rev_app_distr. rewrite <- app_assoc.
    destruct (rev y) as [|d r] eqn:Hr.
    + apply (f_equal (@rev ascii)) in Hr. rewrite rev_involutive in Hr. done.
    + by apply lstrip_cons_fixed.
Qed.

Lemma unlines_app (xs ys : list str) :
  unlines (xs ++ ys) = unlines xs ++ unlines ys.
Proof. unfold unlines. by rewrite map_app, concat_app. Qed.

Lemma split_nonempty (sep : ascii) (n : Z) (s : str) : split sep n s <> [].
Proof.
  revert n. induction s as [|c s IH]; intros n; simpl; [done|].
  destruct (Ascii.eqb c sep && negb (n =? 0)); [done|].
  destruct (split sep n s); done.
Qed.

(** Splitting and joining on the same separator gives the string back. *)
Lemma join_split (sep : ascii) (n : Z) (s : str) :
  join sep (split sep n s) = s.
Proof.
  revert n. induction s as [|c s IH]; intros n; simpl; [done|].
  destruct (Ascii.eqb c sep && negb (n =? 0)) eqn:E.
  - apply andb_true_iff in E as [E _]. apply Ascii.eqb_eq in E. subst c.
    specialize (IH (n - 1)).
    pose proof (split_nonempty sep (n - 1) s) as Hne.
    destruct (split sep (n - 1) s) as [|p ps]; [done|].
    simpl. simpl in IH. by rewrite IH.
  - specialize (IH n). pose proof (split_nonempty sep n s) as Hne.
    destruct (split sep n s) as [|p ps]; [done|].
    rewrite <- IH. destruct ps; reflexivity.
Qed.

Lemma join_unlines (ls : list str) :
  ls <> [] -> join nl ls ++ [nl] = unlines ls.
Proof.
  induction ls as [|p ps IH]; [done|]. intros _.
  destruct ps as [|q qs]; [unfold unlines; simpl; by rewrite app_nil_r|].
  change (join nl (p :: q :: qs)) with (p ++ nl :: join nl (q :: qs)).
  change (unlines (p :: q :: qs)) with ((p ++ [nl]) ++ unlines (q :: qs)).
  rewrite <- IH by done. rewrite <- !app_assoc. reflexivity.
Qed.

Lemma unlines_split (n : Z) (s : str) : unlines (split nl n s) = s ++ [nl].
Proof.
  rewrite <- join_unlines by apply split_nonempty. by rewrite join_split.
Qed.

Lemma slice_to_from (s : str) (m : Z) : slice_to s m ++ slice_from s m = s.
Proof. apply firstn_skipn. Qed.

Lemma len_slice_to (s : str) (m : Z) : 0 <= m -> len (slice_to s m) <= m.
Proof.
  intros Hm. unfold slice_to, slice_bound, len.
  destruct (Z.ltb_spec m 0); [lia|]. rewrite length_firstn. lia.
Qed.

Lemma slice_from_whole (s : str) (m : Z) : len s <= m -> slice_from s m = [].
Proof.
  intros Hm. unfold slice_from, slice_bound.
  pose proof (len_nonneg s).
  destruct (Z.ltb_spec m 0); [lia|].
  apply skipn_all2. unfold len in *. lia.
Qed.

End StringFacts.

(** ** The chunker *)

Section Chunker.

Variable max_length : Z.

(** While everything fits, the loop only appends. *)
Lemma fold_split_step_fits (ls : list str) (chunks : list str) (cur : str) :
  len (cur ++ unlines ls) <= max_length ->
  fold_left (split_step max_length) ls (chunks, cur)
  = (chunks, cur ++ unlines ls).
Proof.
  revert cur. induction ls as [|l ls IH]; intros cur H.
  - unfold unlines. simpl. by rewrite app_nil_r.
  - change (unlines (l :: ls)) with ((l ++ [nl]) ++ unlines ls) in *.
    cbn [fold_left]. unfold split_step at 2.
    destruct (Z.gtb_spec (len (cur ++ l ++ [nl])) max_length) as [Hgt|Hle].
    + exfalso. rewrite !len_app in *. pose proof (len_nonneg (unlines ls)).
      lia.
    + rewrite IH; rewrite <- !app_assoc in *; [reflexivity | exact H].
Qed.

(** One pass over clean lines keeps every line, and leaves an open chunk. *)
Lemma fold_split_step_clean (ls : list str) :
  Forall (clean_line max_length) ls ->
  forall chunks cur, open_chunk cur ->
  exists chunks' cur',
    fold_left (split_step max_length) ls (chunks, cur) = (chunks', cur')
    /\ unlines chunks' ++ cur' = unlines chunks ++ cur ++ unlines ls
    /\ open_chunk cur'
    /\ (cur' = [] -> ls = []).
Proof.
  induction 1 as [|l ls [Hne [Hstrip Hlen]] _ IH]; intros chunks cur Hcur.
  - exists chunks, cur. unfold unlines. simpl. rewrite app_nil_r.
    repeat split; done.
  - apply strip_ends_ok in Hstrip.
    change (unlines (l :: ls)) with ((l ++ [nl]) ++ unlines ls).
    cbn [fold_left]. unfold split_step at 2.
    destruct (Z.gtb_spec (len (cur ++ l ++ [nl])) max_length) as [Hgt|Hle].
    + destruct Hcur as [->|(x & -> & Hx & Hxe)].
      { simpl in Hgt. rewrite len_app in Hgt. change (len [nl]) with 1 in Hgt.
        lia. }
      assert (Ht : truthy (x ++ [nl]) = true)
        by (apply truthy_true_iff; destruct x; done).
      rewrite Ht, (strip_app_space x nl is_space_nl), (ends_ok_strip x Hxe).
      cbv iota.
      destruct (IH (chunks ++ [x]) (l ++ [nl])) as (cs & c & E & Hu & Ho & Hc).
      { right. by exists l. }
      exists cs, c. split; [exact E|]. split; [|split; [done|]].
      * rewrite Hu, unlines_app. unfold unlines at 2. simpl.
        rewrite app_nil_r, <- !app_assoc. reflexivity.
      * intros Hnil. specialize (Hc Hnil). subst ls.
        simpl in E. injection E as _ E. subst c. destruct l; done.
    + cbv iota.
      destruct (IH chunks (cur ++ l ++ [nl])) as (cs & c & E & Hu & Ho & Hc).
      { right. destruct Hcur as [->|(x & -> & Hx & Hxe)].
        - by exists l.
        - exists (x ++ [nl] ++ l). split; [by rewrite <- !app_assoc|].
          split; [by destruct x|]. by apply ends_ok_app. }
      exists cs, c. split; [exact E|]. split; [|split; [done|]].
      * rewrite Hu, <- !app_assoc. reflexivity.
      * intros Hnil. specialize (Hc Hnil). subst ls.
        simpl in E. injection E as _ E. subst c.
        apply app_eq_nil in Hnil as [_ Hnil].
        apply app_eq_nil in Hnil as [_ Hnil]. done.
Qed.

Lemma join_clean (ls : list str) :
  ls <> [] -> Forall (fun l => l <> [] /\ ends_ok l) ls ->
  join nl ls <> [] /\ ends_ok (join nl ls).
Proof.
  induction ls as [|p ps IH]; [done|]. intros _ Hall.
  apply Forall_cons_iff in Hall as [[Hp Hpe] Hps].
  destruct ps as [|q qs]; [done|].
  destruct IH as [Hj Hje]; [done|done|].
  change (join nl (p :: q :: qs)) with (p ++ [nl] ++ join nl (q :: qs)).
  split; [by destruct p | by apply ends_ok_app].
Qed.

(** No chunk is longer than the limit when no line is. *)
Lemma fold_split_step_bound (ls : list str) :
  0 <= max_length ->
  Forall (fun l => len l <= max_length) ls ->
  forall chunks cur,
    Forall (fun c => len c <= max_length) chunks ->
    len (strip cur) <= max_length ->
    Forall (fun c => len c <= max_length)
      (fold_left (split_step max_length) ls (chunks, cur)).1
    /\ len (strip (fold_left (split_step max_length) ls (chunks, cur)).2)
       <= max_length.
Proof.
  intros Hmax. induction 1 as [|l ls Hl _ IH]; intros chunks cur Hcs Hcur.
  - done.
  - cbn [fold_left]. unfold split_step at 2 4.
    destruct (Z.gtb_spec (len (cur ++ l ++ [nl])) max_length) as [Hgt|Hle].
    + destruct (truthy cur).
      * apply IH.
        -- apply Forall_app. split; [done|]. by constructor.
        -- rewrite (strip_app_space l nl is_space_nl).
           pose proof (len_strip_le l). lia.
      * apply IH.
        -- apply Forall_app. split; [done|]. constructor; [|done].
           by apply len_slice_to.
        -- rewrite (slice_from_whole l max_length Hl). simpl.
           change (len (strip [nl])) with 0. done.
    + apply IH; [done|].
      pose proof (len_strip_le (cur ++ l ++ [nl])). lia.
Qed.

Lemma split_message_bound (text : str) :
  Forall (fun l => len l <= max_length) (split nl (-1) text) ->
  Forall (fun c => len c <= max_length) (split_message text max_length).
Proof.
  intros Hall.
  assert (Hmax : 0 <= max_length).
  { pose proof (split_nonempty nl (-1) text) as Hne.
    destruct (split nl (-1) text) as [|l ls]; [done|].
    apply Forall_cons_iff in Hall as [Hl _]. pose proof (len_nonneg l). lia. }
  unfold split_message.
  destruct (fold_split_step_bound _ Hmax Hall [] []) as [Hcs Hcur];
    [done | exact Hmax |].
  destruct (fold_left (split_step max_length) (split nl (-1) text) _)
    as [chunks cur].
  cbn [fst snd] in Hcs, Hcur.
  destruct (truthy (strip cur)); [|exact Hcs].
  apply Forall_app. split; [exact Hcs|]. by constructor.
Qed.

Lemma filter_lstrip (s : str) :
  List.filter not_space (lstrip s) = List.filter not_space s.
Proof.
  induction s as [|c s IH]; [done|]. simpl. unfold not_space at 2 3.
  destruct (is_space c) eqn:Hc; simpl; [exact IH|].
  unfold not_space at 1. by rewrite Hc.
Qed.

Lemma filter_strip (s : str) :
  List.filter not_space (strip s) = List.filter not_space s.
Proof.
  unfold strip, rstrip.
  rewrite List.filter_rev, filter_lstrip, <- List.filter_rev, rev_involutive.
  apply filter_lstrip.
Qed.

(** Whatever the limit, the loop loses nothing but white space. *)
Lemma fold_split_step_keeps (ls : list str) (chunks : list str) (cur : str) :
  let r := fold_left (split_step max_length) ls (chunks, cur) in
  List.filter not_space (concat r.1 ++ r.2)
  = List.filter not_space (concat chunks ++ cur ++ unlines ls).
Proof.
  revert chunks cur. induction ls as [|l ls IH]; intros chunks cur.
  - unfold unlines. simpl. by rewrite app_nil_r.
  - change (unlines (l :: ls)) with ((l ++ [nl]) ++ unlines ls).
    cbn [fold_left]. cbv zeta in IH |- *.
    destruct (split_step max_length (chunks, cur) l) as [chunks1 cur1] eqn:E.
    rewrite IH. unfold split_step in E.
    destruct (len (cur ++ l ++ [nl]) >? max_length).
    + destruct (truthy cur) eqn:Ht; injection E as <- <-.
      * rewrite concat_app. simpl. rewrite app_nil_r.
        rewrite !List.filter_app, filter_strip, <- !app_assoc. reflexivity.
      * apply truthy_false_iff in Ht. subst cur.
        rewrite concat_app. simpl. rewrite app_nil_r, <- !app_assoc.
        rewrite (app_assoc (slice_to l max_length)), slice_to_from.
        reflexivity.
    + injection E as <- <-. rewrite <- !app_assoc. reflexivity.
Qed.

Lemma split_message_keeps_text (text : str) :
  List.filter not_space (concat (split_message text max_length))
  = List.filter not_space text.
Proof.
  unfold split_message.
  pose proof (fold_split_step_keeps (split nl (-1) text) [] []) as H.
  cbv zeta in H.
  destruct (fold_left (split_step max_length) (split nl (-1) text) _)
    as [chunks cur].
  cbn [fst snd concat app] in H.
  rewrite unlines_split, (List.filter_app _ text) in H.
  change (List.filter not_space [nl]) with (@nil ascii) in H.
  rewrite app_nil_r in H.
  rewrite <- H, List.filter_app, <- (filter_strip cur).
  destruct (strip cur) as [|c r] eqn:Hs; simpl truthy; cbv iota.
  - simpl. by rewrite app_nil_r.
  - rewrite concat_app, List.filter_app. simpl. by rewrite app_nil_r.
Qed.

End Chunker.

(** C7, as amended.  A text shorter than the limit stays in one piece:
    [split_message] returns the trimmed text as its only chunk, or no chunk
    at all when nothing but white space is left. *)
Theorem split_message_short (text : str) (max_length : Z) :
  len text < max_length ->
  split_message text max_length
  = if truthy (strip text) then [strip text] else [].
Proof.
  intros H. unfold split_message.
  rewrite fold_split_step_fits.
  - simpl app. rewrite unlines_split, (strip_app_space text nl is_space_nl).
    by destruct (truthy (strip text)).
  - simpl app. rewrite unlines_split, len_app. change (len [nl]) with 1. lia.
Qed.

Lemma split_message_short_witness :
  len (py "  hi ") < 10
  /\ split_message (py "  hi ") 10 = [py "hi"].
Proof.
  split; [reflexivity|]. apply (split_message_short (py "  hi ") 10).
  reflexivity.
Defined.

(** C7 fails as stated.  A text whose length equals the limit is split or
    left untrimmed, because every line is counted with its newline; and an
    empty text gives no chunk. *)
Lemma split_message_short_counterexample :
  (len (two_lines "a" "b") <= 3
   /\ split_message (two_lines "a" "b") 3 = [py "a"; py "b"]
   /\ split_message (two_lines "a" "b") 3 <> [strip (two_lines "a" "b")])
  /\ (len (py " ab") <= 3
      /\ split_message (py " ab") 3 = [py " ab"]
      /\ split_message (py " ab") 3 <> [strip (py " ab")])
  /\ (len [] <= 5
      /\ split_message [] 5 = []
      /\ split_message [] 5 <> [strip []]).
Proof. repeat split; try discriminate; vm_compute; discriminate. Qed.

(** C8, as amended.  When every line of the text is non-empty, has no white
    space at either end and is shorter than the limit, joining the chunks
    with single newlines gives back the trimmed text. *)
Theorem split_message_roundtrip (text : str) (max_length : Z) :
  Forall (clean_line max_length) (split nl (-1) text) ->
  join nl (split_message text max_length) = strip text.
Proof.
  intros Hall.
  pose proof (split_nonempty nl (-1) text) as Hne.
  destruct (fold_split_step_clean max_length _ Hall [] [])
    as (cs & c & E & Hu & Ho & Hc); [by left|].
  unfold split_message.
  destruct (fold_left _ _ _) as [cs' c'].
  injection E as -> ->.
  destruct Ho as [->|(x & -> & Hx & Hxe)]; [by specialize (Hc eq_refl)|].
  rewrite (strip_app_space x nl is_space_nl), (ends_ok_strip x Hxe).
  assert (truthy x = true) as -> by (by apply truthy_true_iff).
  assert (Htext : ends_ok text).
  { rewrite <- (join_split nl (-1) text). apply join_clean; [done|].
    eapply Forall_impl; [exact Hall|].
    intros l (? & ? & ?). split; [done | by apply strip_ends_ok]. }
  rewrite (ends_ok_strip text Htext).
  apply (app_inv_tail [nl]).
  rewrite join_unlines by (by destruct cs).
  rewrite unlines_app. unfold unlines at 2. simpl. rewrite app_nil_r, Hu.
  unfold unlines at 1. simpl. apply unlines_split.
Qed.

Lemma split_message_roundtrip_witness :
  Forall (clean_line 4) (split nl (-1) (two_lines "ab" "cd"))
  /\ join nl (split_message (two_lines "ab" "cd") 4) = two_lines "ab" "cd".
Proof.
  assert (H : Forall (clean_line 4) (split nl (-1) (two_lines "ab" "cd")))
    by (repeat constructor; try discriminate; reflexivity).
  split; [exact H|].
  exact (split_message_roundtrip (two_lines "ab" "cd") 4 H).
Defined.

(** C8 fails as stated.  In none of the three texts is a line longer than
    the limit, yet the joined chunks differ from the trimmed text.  Each
    chunk is trimmed on its own, so the indentation of a line that opens a
    chunk is lost, and so is a blank line that closes one; and a line
    exactly as long as the limit leaves an empty chunk behind. *)
Lemma split_message_roundtrip_counterexample :
  (Forall (fun l => len l <= 4) (split nl (-1) (two_lines "ab" " c"))
   /\ split_message (two_lines "ab" " c") 4 = [py "ab"; py "c"]
   /\ join nl (split_message (two_lines "ab" " c") 4)
      <> strip (two_lines "ab" " c"))
  /\ (Forall (fun l => len l <= 4)
        (split nl (-1) (py "ab" ++ nl :: nl :: py "cd"))
      /\ split_message (py "ab" ++ nl :: nl :: py "cd") 4
         = [py "ab"; py "cd"]
      /\ join nl (split_message (py "ab" ++ nl :: nl :: py "cd") 4)
         <> strip (py "ab" ++ nl :: nl :: py "cd"))
  /\ (Forall (fun l => len l <= 2) (split nl (-1) (two_lines "ab" "cd"))
      /\ split_message (two_lines "ab" "cd") 2 = [py "ab"; []; py "cd"]
      /\ join nl (split_message (two_lines "ab" "cd") 2)
         <> strip (two_lines "ab" "cd")).
Proof.
  repeat split; try (vm_compute; discriminate);
    repeat constructor; vm_compute; discriminate.
Qed.

(** C2: the size bound does not hold.  The first 3 characters of an
    over-long line are cut off as a chunk, but the rest of the line is
    emitted as it is, here with 9 characters against a limit of 3. *)
Example split_message_overlong_rest :
  split_message (py "abcdefghijkl") 3 = [py "abc"; py "defghijkl"]
  /\ Exists (fun c => 3 < len c) (split_message (py "abcdefghijkl") 3).
Proof.
  split; [reflexivity|]. apply Exists_cons_tl, Exists_cons_hd. reflexivity.
Qed.

(** An over-long line that follows a non-empty chunk is not cut at all. *)
Example split_message_overlong_line_kept :
  split_message (py "ab" ++ nl :: py "abcdefghij" ++ nl :: py "cd") 5
  = [py "ab"; py "abcdefghij"; py "cd"].
Proof. reflexivity. Qed.

(** ** The address predicate *)

Section Validator.

Lemma hex_digit_code (c : ascii) :
  is_hex_digit c = true ->
  48 <= code c <= 57 \/ 97 <= code c <= 102 \/ 65 <= code c <= 70.
Proof.
  unfold is_hex_digit, hex_digit_value. cbv zeta.
  destruct (Z.leb_spec 48 (code c)), (Z.leb_spec (code c) 57);
    destruct (Z.leb_spec 97 (code c)), (Z.leb_spec (code c) 102);
    destruct (Z.leb_spec 65 (code c)), (Z.leb_spec (code c) 70);
    simpl; intros; try discriminate; lia.
Qed.

Lemma hex_digit_not (c d : ascii) :
  is_hex_digit c = true -> is_hex_digit d = false -> Ascii.eqb c d = false.
Proof.
  intros Hc Hd. destruct (Ascii.eqb_spec c d) as [->|]; congruence.
Qed.

Lemma hex_digit_not_space (c : ascii) :
  is_hex_digit c = true -> c_isspace c = false.
Proof.
  intros H. apply hex_digit_code in H. unfold c_isspace. cbv zeta.
  destruct (Z.leb_spec 9 (code c)), (Z.leb_spec (code c) 13),
    (Z.eqb_spec (code c) 32); simpl; try done; lia.
Qed.

Lemma to_ascii_digits_hex (s : str) :
  forallb is_hex_digit s = true -> to_ascii_digits s = s.
Proof.
  induction s as [|c s IH]; [done|]. simpl.
  intros [Hc Hs]%andb_true_iff.
  pose proof (hex_digit_code c Hc).
  destruct (Z.ltb_spec (code c) 127); [|lia]. by rewrite IH.
Qed.

Lemma scan_digits_hex (s : str) (acc : Z) (digits : nat) :
  forallb is_hex_digit s = true ->
  exists v, scan_digits false acc digits s
            = Some (v, (digits + length s)%nat, []).
Proof.
  revert acc digits. induction s as [|c s IH]; intros acc digits H.
  - exists acc. simpl. by rewrite Nat.add_0_r.
  - simpl in H. apply andb_true_iff in H as [Hc Hs].
    unfold is_hex_digit in Hc. simpl.
    destruct (hex_digit_value c) as [d|]; [|done].
    destruct (IH (16 * acc + d) (S digits) Hs) as [v Hv].
    exists v. rewrite Hv. do 3 f_equal. lia.
Qed.

(** A non-empty run of hexadecimal digits is a base-16 literal. *)
Lemma int16_hex (s : str) :
  s <> [] -> forallb is_hex_digit s = true -> int16 s <> None.
Proof.
  intros Hne Hs. unfold int16. rewrite (to_ascii_digits_hex s Hs).
  destruct s as [|c s]; [done|].
  pose proof Hs as Hcs. simpl in Hcs. apply andb_true_iff in Hcs as [Hc Hs'].
  simpl skip_spaces. rewrite (hex_digit_not_space c Hc).
  unfold skip_sign.
  rewrite (hex_digit_not c "+" Hc eq_refl), (hex_digit_not c "-" Hc eq_refl).
  assert (Hp : skip_prefix16 (c :: s) = c :: s).
  { unfold skip_prefix16. destruct s as [|x s]; [done|].
    simpl in Hs'. apply andb_true_iff in Hs' as [Hx _].
    rewrite (hex_digit_not x "x" Hx eq_refl), (hex_digit_not x "X" Hx eq_refl).
    by rewrite andb_false_r. }
  rewrite Hp. cbn [startswith].
  rewrite (Ascii.eqb_sym "_" c), (hex_digit_not c "_" Hc eq_refl). cbn [andb].
  destruct (scan_digits_hex (c :: s) 0 0 Hs) as [v Hv]. rewrite Hv.
  simpl. done.
Qed.

(** What [is_contract_address] guarantees about an accepted text. *)
Lemma is_contract_address_shape (text : str) :
  is_contract_address text = true ->
  len (strip text) = 42
  /\ startswith (py "0x") (strip text) = true
  /\ int16 (skipn 2 (strip text)) <> None.
Proof.
  unfold is_contract_address.
  destruct (truthy text); [|done]. cbv zeta. simpl negb at 1. cbv iota.
  destruct (startswith (py "0x") (strip text)); [|done].
  destruct (Z.eqb_spec (len (strip text)) 42); [|done].
  simpl negb. cbv iota.
  destruct (int16 (skipn 2 (strip text))); done.
Qed.

(** Every address the specification calls valid is accepted. *)
Lemma spec_valid_accepted (text : str) :
  spec_is_valid_address text = true -> is_contract_address text = true.
Proof.
  unfold spec_is_valid_address. cbv zeta.
  intros [[Hlen Hpre]%andb_true_iff Hhex]%andb_true_iff.
  apply Z.eqb_eq in Hlen.
  unfold is_contract_address.
  assert (Ht : truthy text = true).
  { apply truthy_true_iff. intros ->. discriminate Hlen. }
  rewrite Ht. cbv zeta. simpl negb at 1. cbv iota.
  rewrite Hpre. simpl negb at 1. cbv iota.
  rewrite Hlen. simpl negb at 1. cbv iota.
  destruct (int16 (skipn 2 (strip text))) eqn:E; [done|].
  exfalso. revert E. apply int16_hex; [|done].
  intros Hnil. apply (f_equal (@length ascii)) in Hnil.
  rewrite length_skipn in Hnil. unfold len in Hlen. simpl in Hnil. lia.
Qed.

End Validator.

(** C5: the predicate accepts more than the 40 hexadecimal digits.  [int]
    takes a sign, so 42 characters that start with [0x+] pass. *)
Example is_contract_address_accepts_sign :
  is_contract_address signed_token = true
  /\ len (strip signed_token) = 42
  /\ forallb is_hex_digit (skipn 2 (strip signed_token)) = false
  /\ spec_is_valid_address signed_token = false.
Proof. repeat split. Qed.

(** So do an inner [0x], underscores between digits and blanks after the
    prefix. *)
Example is_contract_address_accepts_more :
  is_contract_address (py "0x0x34567890abcdef1234567890abcdef12345678") = true
  /\ is_contract_address (py "0x12_4567890abcdef1234567890abcdef12345678")
     = true
  /\ is_contract_address (py "0x  34567890abcdef1234567890abcdef12345678")
     = true.
Proof. repeat split. Qed.

(** The examples of the specification. *)
Example is_contract_address_examples :
  is_contract_address token = true
  /\ is_contract_address (py "0x123") = false
  /\ is_contract_address (py "1234567890abcdef1234567890abcdef12345678")
     = false
  /\ is_contract_address (py "0xZZ34567890abcdef1234567890abcdef12345678")
     = false.
Proof. repeat split. Qed.

(** ** The refresh token *)

Lemma split_zero (sep : ascii) (s : str) : split sep 0 s = [s].
Proof.
  induction s as [|c s IH]; [done|]. simpl.
  rewrite andb_false_r, IH. reflexivity.
Qed.

Lemma callback_address_refresh (address : str) :
  callback_address (py "refresh:" ++ address) = Ok address.
Proof. unfold callback_address. simpl. rewrite split_zero. reflexivity. Qed.

(** C9.  The callback data of the refresh button for an address starts with
    [refresh:], and the address the callback handler reads from it, the part
    after the first colon, is that address. *)
Theorem refresh_roundtrip (address : str) :
  startswith (py "refresh:") (refresh_callback_data address) = true
  /\ callback_address (refresh_callback_data address) = Ok address.
Proof.
  split; [reflexivity | apply callback_address_refresh].
Qed.

(** ** What a handler leaves behind *)

Section Frames.

Context {AnalysisResult Response Chain : Type}.
Variable env : Env AnalysisResult Response Chain.
Variable P : Event -> Prop.

Lemma appends_ret {A : Type} (a : A) : appends P (mret a).
Proof. intros st. exists []. simpl. by rewrite app_nil_r. Qed.

Lemma appends_lift {A : Type} (o : Outcome A) : appends P (lift o).
Proof. intros st. exists []. simpl. by rewrite app_nil_r. Qed.

Lemma appends_log_error (l : LogLine) : appends P (log_error l).
Proof. intros st. exists []. simpl. by rewrite app_nil_r. Qed.

Lemma appends_guard_contains (u : Z) : appends P (guard_contains u).
Proof. intros st. exists []. simpl. by rewrite app_nil_r. Qed.

Lemma appends_bind {A B : Type} (m : M A) (k : A -> M B) :
  appends P m -> (forall a, appends P (k a)) -> appends P (m ≫= k).
Proof.
  intros Hm Hk st. unfold mbind, M_bind.
  destruct (Hm st) as (evs1 & H1 & F1).
  destruct (m st) as [[a|e] st1]; simpl in H1.
  - destruct (Hk a st1) as (evs2 & H2 & F2). exists (evs1 ++ evs2).
    rewrite H2, H1, app_assoc. split; [done|]. by apply Forall_app.
  - by exists evs1.
Qed.

Lemma appends_try_except {A : Type} (body : M A) (handler : Exn -> M A) :
  appends P body -> (forall e, appends P (handler e)) ->
  appends P (try_except body handler).
Proof.
  intros Hm Hk st. unfold try_except.
  destruct (Hm st) as (evs1 & H1 & F1).
  destruct (body st) as [[a|e] st1]; simpl in H1; [by exists evs1|].
  destruct (catchable e); [|by exists evs1].
  destruct (Hk e st1) as (evs2 & H2 & F2). exists (evs1 ++ evs2).
  rewrite H2, H1, app_assoc. split; [done|]. by apply Forall_app.
Qed.

Lemma appends_try_finally {A : Type} (body : M A) (cleanup : M unit) :
  appends P body -> appends P cleanup -> appends P (try_finally body cleanup).
Proof.
  intros Hm Hk st. unfold try_finally.
  destruct (Hm st) as (evs1 & H1 & F1).
  destruct (body st) as [r st1]; simpl in H1.
  destruct (Hk st1) as (evs2 & H2 & F2). exists (evs1 ++ evs2).
  destruct (cleanup st1) as [[[]|e] st2]; simpl in *;
    rewrite H2, H1, app_assoc; (split; [done|]); by apply Forall_app.
Qed.

Lemma appends_perform (e : Event) : P e -> appends P (perform env e).
Proof.
  intros He st. exists [e]. unfold perform.
  destruct (transport env (history st) e); simpl; split; try done;
    by constructor.
Qed.

Lemma appends_call_analyze_token (address : str) :
  P (AnalyzeToken address) -> appends P (call_analyze_token env address).
Proof.
  intros He st. exists [AnalyzeToken address]. split; by repeat constructor.
Qed.

Lemma appends_guard_add (u : Z) : P (GuardAdd u) -> appends P (guard_add u).
Proof. intros He st. exists [GuardAdd u]. split; by repeat constructor. Qed.

Lemma appends_guard_discard (u : Z) :
  P (GuardDiscard u) -> appends P (guard_discard u).
Proof.
  intros He st. exists [GuardDiscard u]. split; by repeat constructor.
Qed.

Lemma keeps_users_ret {A : Type} (a : A) : keeps_users (mret a).
Proof. done. Qed.

Lemma keeps_users_lift {A : Type} (o : Outcome A) : keeps_users (lift o).
Proof. done. Qed.

Lemma keeps_users_log_error (l : LogLine) : keeps_users (log_error l).
Proof. done. Qed.

Lemma keeps_users_guard_contains (u : Z) : keeps_users (guard_contains u).
Proof. done. Qed.

Lemma keeps_users_bind {A B : Type} (m : M A) (k : A -> M B) :
  keeps_users m -> (forall a, keeps_users (k a)) -> keeps_users (m ≫= k).
Proof.
  intros Hm Hk st. unfold mbind, M_bind. specialize (Hm st).
  destruct (m st) as [[a|e] st1]; simpl in Hm; [|done].
  by rewrite Hk.
Qed.

Lemma keeps_users_try_except {A : Type} (body : M A) (handler : Exn -> M A) :
  keeps_users body -> (forall e, keeps_users (handler e)) ->
  keeps_users (try_except body handler).
Proof.
  intros Hm Hk st. unfold try_except. specialize (Hm st).
  destruct (body st) as [[a|e] st1]; simpl in Hm; [done|].
  destruct (catchable e); [|done]. by rewrite Hk.
Qed.

Lemma keeps_users_perform (e : Event) : keeps_users (perform env e).
Proof.
  intros st. unfold perform. by destruct (transport env (history st) e).
Qed.

Lemma keeps_users_call_analyze_token (address : str) :
  keeps_users (call_analyze_token env address).
Proof. done. Qed.

End Frames.

Lemma appends_weaken {A : Type} (P Q : Event -> Prop) (m : M A) :
  (forall e, P e -> Q e) -> appends P m -> appends Q m.
Proof.
  intros HPQ Hm st. destruct (Hm st) as (evs & H & F). exists evs.
  split; [done|]. eapply Forall_impl; [exact F | exact HPQ].
Qed.

Lemma delivery_event_session (address : str) (e : Event) :
  delivery_event e -> session_event address e.
Proof. by destruct e as [[]| |? [] []| | | | |]. Qed.

Lemma delivery_event_not_edit (e : Event) :
  delivery_event e -> is_edit e = false.
Proof. by destruct e. Qed.

Lemma appends_delivery_session {A : Type} (address : str) (m : M A) :
  appends delivery_event m -> appends (session_event address) m.
Proof. apply appends_weaken, delivery_event_session. Qed.

Create HintDb frames.

#[local] Hint Resolve appends_ret appends_lift appends_log_error
  appends_guard_contains appends_perform appends_call_analyze_token
  appends_guard_add appends_guard_discard
  keeps_users_ret keeps_users_lift keeps_users_log_error
  keeps_users_guard_contains keeps_users_perform
  keeps_users_call_analyze_token : frames.

#[local] Hint Extern 1 (delivery_event _) => exact I : frames.
#[local] Hint Extern 1 (session_event _ _) => first [exact I | reflexivity]
  : frames.
#[local] Hint Extern 5 (appends (session_event _) _) =>
  apply appends_delivery_session : frames.

(** Walks down a handler, one combinator at a time. *)
Ltac frame_step :=
  first
    [ solve [auto with frames]
    | progress cbv zeta
    | progress unfold reply_text, edit_text, send_message, answer_query,
        edit_query_message
    | match goal with
      | |- appends _ (mbind _ _) => apply appends_bind; [|intros ?]
      | |- appends _ (try_except _ _) => apply appends_try_except; [|intros ?]
      | |- appends _ (try_finally _ _) => apply appends_try_finally
      | |- keeps_users (mbind _ _) => apply keeps_users_bind; [|intros ?]
      | |- keeps_users (try_except _ _) =>
          apply keeps_users_try_except; [|intros ?]
      | |- appends _ (if ?b then _ else _) => destruct b
      | |- appends _ (match ?x with _ => _ end) => destruct x
      | |- keeps_users (if ?b then _ else _) => destruct b
      | |- keeps_users (match ?x with _ => _ end) => destruct x
      end ].

Ltac frame := repeat frame_step.

Lemma add_discard (u : Z) (s : gset Z) : u ∉ s -> ({[u]} ∪ s) ∖ {[u]} = s.
Proof.
  intros Hu. apply set_eq. intros x.
  rewrite elem_of_difference, elem_of_union, elem_of_singleton.
  split; [by intros [[?|?] ?]|]. intros Hx. split; [by right|]. by intros ->.
Qed.

Lemma emit_nil (st : State) : emit [] st = st.
Proof. destruct st. unfold emit. simpl. by rewrite app_nil_r. Qed.

Lemma emit_emit (xs ys : list Event) (st : State) :
  emit ys (emit xs st) = emit (xs ++ ys) st.
Proof. unfold emit. simpl. by rewrite app_assoc. Qed.

Section Sessions.

Context {AnalysisResult Response Chain : Type}.
Variable env : Env AnalysisResult Response Chain.

Lemma send_chunks_frames (update : Update) (chunks : list str) (i : nat) :
  appends delivery_event (send_chunks env update i chunks)
  /\ keeps_users (send_chunks env update i chunks).
Proof.
  revert i. induction chunks as [|c cs IH]; intros i; simpl.
  - split; frame.
  - destruct (IH (S i)) as [IH1 IH2].
    split; frame.
Qed.

Lemma send_long_message_appends (update : Update) (message : str) :
  appends delivery_event (send_long_message env update message).
Proof.
  unfold send_long_message. frame. apply send_chunks_frames.
Qed.

Lemma send_long_message_keeps (update : Update) (message : str) :
  keeps_users (send_long_message env update message).
Proof.
  unfold send_long_message. frame. apply send_chunks_frames.
Qed.

Lemma add_action_buttons_appends (update : Update) (address : str)
    (response : Response) :
  appends delivery_event (add_action_buttons env update address response).
Proof. unfold add_action_buttons. frame. Qed.

Lemma add_action_buttons_keeps (update : Update) (address : str)
    (response : Response) :
  keeps_users (add_action_buttons env update address response).
Proof. unfold add_action_buttons. frame. Qed.

#[local] Hint Resolve send_long_message_appends send_long_message_keeps
  add_action_buttons_appends add_action_buttons_keeps : frames.

(** Delivery edits no message and does not touch the set. *)
Lemma send_analysis_results_appends (update : Update) (response : Response)
    (address : str) :
  appends delivery_event (send_analysis_results env update response address).
Proof. unfold send_analysis_results. frame. Qed.

Lemma send_analysis_results_keeps (update : Update) (response : Response)
    (address : str) :
  keeps_users (send_analysis_results env update response address).
Proof. unfold send_analysis_results. frame. Qed.

#[local] Hint Resolve send_analysis_results_appends
  send_analysis_results_keeps : frames.

Lemma analysis_session_appends (update : Update) (address : str) (u : Z) :
  appends (session_event address) (analysis_session env update address u).
Proof.
  unfold analysis_session. frame.
Qed.

(** The set after a session that began with the user already added: the
    user is discarded if the status placeholder went out, and stays if
    sending it raised. *)
Lemma analysis_session_users (update : Update) (address : str) (u : Z)
    (st : State) :
  analyzing_users (analysis_session env update address u st).2
  = match transport env (history st) (ReplyText (AnalyzingStatus address)) with
    | None => analyzing_users st ∖ {[u]}
    | Some _ => analyzing_users st
    end.
Proof.
  unfold analysis_session, reply_text, perform.
  unfold mbind at 1, M_bind at 1.
  destruct (transport env (history st) _); [done|].
  unfold try_finally.
  match goal with |- context [try_except ?b ?h ?s] =>
    assert (Hk : keeps_users (try_except b h)) by frame;
    specialize (Hk s); destruct (try_except b h s) as [r st2]
  end.
  simpl in *. by rewrite Hk.
Qed.

#[local] Hint Resolve analysis_session_appends : frames.

(** A request of a user who is not in the set is accepted: the user is
    added and the status placeholder is sent. *)
Lemma analyze_token_address_accepted (update : Update) (address : str)
    (u : Z) (st : State) :
  effective_user update = Some u ->
  u ∉ analyzing_users st ->
  exists rest,
    history (analyze_token_address env update address st).2
    = history st ++ GuardAdd u :: ReplyText (AnalyzingStatus address) :: rest.
Proof.
  intros Hu Hfree.
  unfold analyze_token_address, try_except, effective_user_id.
  rewrite Hu.
  unfold mbind at 1, M_bind at 1, lift at 1.
  unfold mbind at 1, M_bind at 1, guard_contains at 1.
  rewrite bool_decide_eq_false_2 by done.
  unfold mbind at 1, M_bind at 1, guard_add at 1.
  set (st1 := {| analyzing_users := _ |}).
  assert (Hs : exists r st2 rest,
    analysis_session env update address u st1 = (r, st2)
    /\ history st2
       = history st ++ GuardAdd u :: ReplyText (AnalyzingStatus address)
         :: rest).
  { unfold analysis_session, reply_text, perform.
    unfold mbind at 1, M_bind at 1.
    destruct (transport env (history st1) _) as [x|].
    - eexists _, _, []. split; [reflexivity|]. simpl.
      by rewrite <- app_assoc.
    - match goal with |- context [try_finally ?b ?c ?s] =>
        assert (Ha : appends (session_event address) (try_finally b c));
        [|destruct (Ha s) as (evs & He & _);
          destruct (try_finally b c s) as [r st2]]
      end.
      { frame. }
      eexists _, _, evs. split; [reflexivity|].
      simpl in He. rewrite He. simpl. by rewrite <- !app_assoc. }
  destruct Hs as (r & st2 & rest & -> & Hh).
  destruct r as [[]|e]; [by exists rest|].
  destruct (catchable e); [|by exists rest].
  match goal with |- context [history (?h ?s).2] =>
    assert (Ha : appends (session_event address) h) by frame;
    destruct (Ha s) as (evs & He & _)
  end.
  exists (rest ++ evs). rewrite He, Hh, <- app_assoc. reflexivity.
Qed.

(** The set after a request of a user who was not in it. *)
Lemma analyze_token_address_users (update : Update) (address : str)
    (u : Z) (st : State) :
  effective_user update = Some u ->
  u ∉ analyzing_users st ->
  analyzing_users (analyze_token_address env update address st).2
  = match transport env (history st ++ [GuardAdd u])
            (ReplyText (AnalyzingStatus address)) with
    | None => analyzing_users st
    | Some _ => {[u]} ∪ analyzing_users st
    end.
Proof.
  intros Hu Hfree.
  unfold analyze_token_address, try_except, effective_user_id.
  rewrite Hu.
  unfold mbind at 1, M_bind at 1, lift at 1.
  unfold mbind at 1, M_bind at 1, guard_contains at 1.
  rewrite bool_decide_eq_false_2 by done.
  unfold mbind at 1, M_bind at 1, guard_add at 1.
  set (st1 := {| analyzing_users := _ |}).
  pose proof (analysis_session_users update address u st1) as Hs.
  change (history st1) with (history st ++ [GuardAdd u]) in Hs.
  change (analyzing_users st1) with ({[u]} ∪ analyzing_users st) in Hs.
  assert (Hafter :
    analyzing_users (analysis_session env update address u st1).2
    = match transport env (history st ++ [GuardAdd u])
              (ReplyText (AnalyzingStatus address)) with
      | None => analyzing_users st
      | Some _ => {[u]} ∪ analyzing_users st
      end).
  { rewrite Hs. destruct (transport env _ _); [done|].
    by apply add_discard. }
  destruct (analysis_session env update address u st1) as [[[]|e] st2];
    simpl in Hafter |- *; [done|].
  destruct (catchable e); [|done].
  match goal with |- context [analyzing_users (?h ?s).2] =>
    assert (Hk : keeps_users h) by frame; rewrite (Hk s)
  end.
  done.
Qed.

(** A request of a user who is in the set is told to wait, and nothing
    else happens. *)
Lemma analyze_token_address_busy (update : Update) (address : str)
    (u : Z) (st : State) :
  effective_user update = Some u ->
  u ∈ analyzing_users st ->
  transport env (history st) (ReplyText AlreadyInProgress) = None ->
  history (analyze_token_address env update address st).2
  = history st ++ [ReplyText AlreadyInProgress]
  /\ analyzing_users (analyze_token_address env update address st).2
     = analyzing_users st.
Proof.
  intros Hu Hbusy Hok.
  assert (E : analyze_token_address env update address st
              = (Ok tt, record_event (ReplyText AlreadyInProgress) st)).
  { unfold analyze_token_address, try_except, effective_user_id.
    rewrite Hu.
    unfold mbind at 1, M_bind at 1, lift at 1.
    unfold mbind at 1, M_bind at 1, guard_contains at 1.
    rewrite bool_decide_eq_true_2 by done.
    unfold reply_text, perform, mbind, M_bind. by rewrite Hok. }
  by rewrite E.
Qed.

(** A session whose analyzer call raises: the failure notice is written
    over the placeholder when the exception is an [Exception], and the user
    is discarded in either case. *)
Lemma analysis_session_analyzer_fails (update : Update) (address : str)
    (u : Z) (st : State) (e : Exn) :
  transport env (history st) (ReplyText (AnalyzingStatus address)) = None ->
  analyze_token env (history st ++ [ReplyText (AnalyzingStatus address)])
    address = Raise e ->
  exists mid,
    history (analysis_session env update address u st).2
    = history st
      ++ [ReplyText (AnalyzingStatus address); AnalyzeToken address]
      ++ mid ++ [GuardDiscard u]
    /\ (mid = []
        \/ mid = [EditText (length (history st))
                    (AnalysisFailed address (exn_text e))]).
Proof.
  intros Hup Hfail.
  unfold analysis_session, reply_text, perform.
  unfold mbind at 1, M_bind at 1. rewrite Hup.
  unfold try_finally, try_except.
  unfold mbind at 1, M_bind at 1, call_analyze_token.
  cbn [history record_event]. rewrite Hfail.
  destruct (catchable e).
  - unfold log_error, edit_text, perform, mbind, M_bind.
    cbn [history record_event].
    exists [EditText (length (history st))
              (AnalysisFailed address (exn_text e))].
    split; [|by right].
    destruct (transport env _ (EditText _ _)); simpl;
      by rewrite <- !app_assoc.
  - exists []. split; [|by left]. simpl. by rewrite <- !app_assoc.
Qed.

(** The first steps of a request of a user who is not in the set. *)
Lemma analyze_token_address_free (update : Update) (address : str) (u : Z)
    (st : State) :
  effective_user update = Some u ->
  u ∉ analyzing_users st ->
  analyze_token_address env update address st
  = try_except (analysis_session env update address u)
      (fun e =>
         log_error (LogTokenAnalysisError (exn_text e));;
         reply_text env AnalysisErrorNotice;; mret tt)
      {| analyzing_users := {[u]} ∪ analyzing_users st;
         history := history st ++ [GuardAdd u];
         log := log st |}.
Proof.
  intros Hu Hfree.
  unfold analyze_token_address, try_except, effective_user_id.
  rewrite Hu.
  unfold mbind at 1, M_bind at 1, lift at 1.
  unfold mbind at 1, M_bind at 1, guard_contains at 1.
  rewrite bool_decide_eq_false_2 by done.
  reflexivity.
Qed.

Lemma analyze_token_address_analyzer_fails (update : Update) (address : str)
    (u : Z) (st : State) (e : Exn) :
  effective_user update = Some u ->
  u ∉ analyzing_users st ->
  transport env (history st ++ [GuardAdd u])
    (ReplyText (AnalyzingStatus address)) = None ->
  analyze_token env
    ((history st ++ [GuardAdd u]) ++ [ReplyText (AnalyzingStatus address)])
    address = Raise e ->
  exists rest,
    history (analyze_token_address env update address st).2
    = history st
      ++ [GuardAdd u; ReplyText (AnalyzingStatus address);
          AnalyzeToken address]
      ++ rest
    /\ In (GuardDiscard u) rest.
Proof.
  intros Hu Hfree Hup Hfail.
  rewrite (analyze_token_address_free update address u st Hu Hfree).
  set (st1 := {| analyzing_users := _ |}).
  destruct (analysis_session_analyzer_fails update address u st1 e Hup Hfail)
    as (mid & Hh & _).
  change (history st1) with (history st ++ [GuardAdd u]) in Hh.
  unfold try_except.
  destruct (analysis_session env update address u st1) as [[[]|x] st2];
    cbn [snd] in Hh |- *.
  - exists (mid ++ [GuardDiscard u]). rewrite Hh, <- !app_assoc.
    split; [done|]. apply in_or_app. right. by left.
  - destruct (catchable x).
    + match goal with |- context [history (?h ?s).2] =>
        assert (Ha : appends (session_event address) h) by frame;
        destruct (Ha s) as (evs & He & _)
      end.
      exists (mid ++ [GuardDiscard u] ++ evs).
      rewrite He, Hh, <- !app_assoc. split; [done|].
      apply in_or_app. right. by left.
    + exists (mid ++ [GuardDiscard u]). cbn [snd].
      rewrite Hh, <- !app_assoc.
      split; [done|]. apply in_or_app. right. by left.
Qed.

Lemma analyze_token_address_appends (update : Update) (address : str) :
  appends (session_event address) (analyze_token_address env update address).
Proof. unfold analyze_token_address. frame. Qed.

(** A text that is not an address is turned down: the reply is the only
    effect, and the set is not touched. *)
Lemma handle_message_rejects (update : Update) (st : State) :
  is_contract_address (strip (message_text update)) = false ->
  history (handle_message env update st).2
  = history st ++ [ReplyText InvalidAddressPrompt]
  /\ analyzing_users (handle_message env update st).2 = analyzing_users st.
Proof.
  intros H. unfold handle_message. rewrite H.
  unfold reply_text, perform, mbind, M_bind.
  by destruct (transport env (history st) _).
Qed.

(** Free text that does anything but draw the rejection is an accepted
    address. *)
Lemma handle_message_validates (update : Update) (st : State)
    (evs : list Event) :
  history (handle_message env update st).2 = history st ++ evs ->
  evs <> [ReplyText InvalidAddressPrompt] ->
  is_contract_address (strip (message_text update)) = true.
Proof.
  intros Hh Hne.
  destruct (is_contract_address (strip (message_text update))) eqn:E; [done|].
  destruct (handle_message_rejects update st E) as [Hr _].
  rewrite Hr in Hh. by apply app_inv_head in Hh.
Qed.

Section Delivered.

Hypothesis transport_up : forall h e, transport env h e = None.

Lemma perform_up (e : Event) (st : State) :
  perform env e st = (Ok (length (history st)), emit [e] st).
Proof. unfold perform. by rewrite transport_up. Qed.

Lemma send_chunks_later (update : Update) (chunks : list str) (i : nat)
    (st : State) :
  send_chunks env update (S i) chunks st
  = (Ok tt,
     emit (map (fun c => SendMessage (effective_chat_id update) (Plain c) None)
             chunks) st).
Proof.
  revert i st. induction chunks as [|c cs IH]; intros i st.
  - simpl. by rewrite emit_nil.
  - cbn [send_chunks Nat.eqb]. unfold send_message.
    unfold mbind, M_bind. rewrite perform_up.
    cbn [mret M_ret]. rewrite IH, emit_emit. reflexivity.
Qed.

Lemma deliver_up (update : Update) (message : str) (st : State) :
  (if len message >? MAX_MESSAGE_LENGTH env
   then send_long_message env update message
   else reply_text env (Plain message);; mret tt) st
  = (Ok tt,
     emit (delivery_events (MAX_MESSAGE_LENGTH env)
             (effective_chat_id update) message) st).
Proof.
  unfold delivery_events.
  destruct (len message >? MAX_MESSAGE_LENGTH env).
  - unfold send_long_message, try_except. cbv zeta.
    destruct (split_message message (MAX_MESSAGE_LENGTH env - 100))
      as [|c cs].
    + simpl. by rewrite emit_nil.
    + cbn [send_chunks Nat.eqb]. unfold reply_text.
      unfold mbind, M_bind. rewrite perform_up.
      cbn [mret M_ret]. rewrite send_chunks_later, emit_emit. reflexivity.
  - unfold reply_text, mbind, M_bind. rewrite perform_up. reflexivity.
Qed.

Lemma send_analysis_results_up (update : Update) (response : Response)
    (address message : str) (st : State) :
  to_telegram_message env response = Ok message ->
  exists rest,
    history (send_analysis_results env update response address st).2
    = history st
      ++ delivery_events (MAX_MESSAGE_LENGTH env) (effective_chat_id update)
           message
      ++ rest
    /\ Forall delivery_event rest.
Proof.
  intros Hm. unfold send_analysis_results.
  match goal with |- context [try_except ?b ?h st] =>
    assert (Hb : exists r st1 rest,
      b st = (r, st1)
      /\ history st1
         = history st
           ++ delivery_events (MAX_MESSAGE_LENGTH env)
                (effective_chat_id update) message
           ++ rest
      /\ Forall delivery_event rest);
    [|assert (Hh : forall e, appends delivery_event (h e)) by (intros; frame)]
  end.
  { rewrite Hm. unfold mbind at 1, M_bind at 1, lift at 1.
    unfold mbind at 1, M_bind at 1. rewrite deliver_up.
    destruct (add_action_buttons_appends update address response
                (emit (delivery_events (MAX_MESSAGE_LENGTH env)
                         (effective_chat_id update) message) st))
      as (evs & He & Hf).
    destruct (add_action_buttons env update address response _) as [r st1].
    exists r, st1, evs. split; [done|]. split; [|done].
    simpl in He. by rewrite He, <- app_assoc. }
  destruct Hb as (r & st1 & rest & Hb & Hh1 & Hf1).
  unfold try_except. rewrite Hb.
  destruct r as [[]|e]; [by exists rest|].
  destruct (catchable e); [|by exists rest].
  destruct (Hh e st1) as (evs & He & Hf).
  exists (rest ++ evs). rewrite He, Hh1, <- !app_assoc.
  split; [done|]. by apply Forall_app.
Qed.

End Delivered.

End Sessions.

(** C1: the user stays locked when the status placeholder cannot be sent.
    The placeholder is sent after the user is added and before the
    [try ... finally] that discards the user, so the exception skips the
    cleanup; the next request of the same user is told to wait. *)
Example placeholder_failure_keeps_user :
  let st1 :=
    (analyze_token_address
       (env 4096 (analyzer_up (py "report")) transport_drops_status)
       (text_update token) token idle).2 in
  analyzing_users st1 = {[user]}
  /\ history st1
     = [GuardAdd user; ReplyText (AnalyzingStatus token);
        ReplyText AnalysisErrorNotice]
  /\ history
       (analyze_token_address
          (env 4096 (analyzer_up (py "report")) transport_up)
          (text_update token) token st1).2
     = history st1 ++ [ReplyText AlreadyInProgress].
Proof. repeat split. Qed.

(** C3: [/analyze] does not validate its argument.  With an argument that
    [is_contract_address] turns down, the user is added to the set and the
    analyzer is called on it; only free text goes through the check. *)
Example analyze_command_skips_validation :
  is_contract_address (py "hello") = false
  /\ history
       (analyze_command (env 4096 (analyzer_up (py "report")) transport_up)
          (text_update []) [py "hello"] idle).2
     = [GuardAdd user;
        ReplyText (AnalyzingStatus (py "hello"));
        AnalyzeToken (py "hello");
        ReplyText (Plain (py "report"));
        SendMessage chat QuickActions
          (Some [[CallbackButton (py "refresh:hello")]]);
        GuardDiscard user].
Proof. repeat split. Qed.

(** The same text sent as a plain message is turned down. *)
Example handle_message_turns_down :
  history
    (handle_message (env 4096 (analyzer_up (py "report")) transport_up)
       (text_update (py "hello")) idle).2
  = [ReplyText InvalidAddressPrompt].
Proof. reflexivity. Qed.

(** C4 fails as stated.  A text that fits is sent as a reply of its own;
    no event of the session edits the status placeholder. *)
Lemma delivery_edit_counterexample :
  let h :=
    history
      (analyze_token_address
         (env 4096 (analyzer_up (py "report")) transport_up)
         (text_update token) token idle).2 in
  len (py "report") <= 4096
  /\ h = [GuardAdd user;
          ReplyText (AnalyzingStatus token);
          AnalyzeToken token;
          ReplyText (Plain (py "report"));
          SendMessage chat QuickActions
            (Some [[CallbackButton (refresh_callback_data token)]]);
          GuardDiscard user]
  /\ ~ In (EditText 1 (Plain (py "report"))) h
  /\ forallb is_edit h = false.
Proof.
  cbv zeta. split; [discriminate|]. split; [reflexivity|].
  split; [|reflexivity].
  intros Hin. vm_compute in Hin. intuition discriminate.
Qed.

(** A text of three lines of 99 characters against a limit of 200: three
    chunks, the first sent as a reply and the others as new messages, the
    action panel last. *)
Example long_delivery_history :
  let line := repeat "a"%char 99 in
  history
    (analyze_token_address
       (env 200 (analyzer_up (join nl [line; line; line])) transport_up)
       (text_update token) token idle).2
  = [GuardAdd user;
     ReplyText (AnalyzingStatus token);
     AnalyzeToken token;
     ReplyText (Plain line);
     SendMessage chat (Plain line) None;
     SendMessage chat (Plain line) None;
     SendMessage chat QuickActions
       (Some [[CallbackButton (refresh_callback_data token)]]);
     GuardDiscard user].
Proof. vm_compute. reflexivity. Qed.

(** C6.  When the analyzer raises in a session that had taken the guard and
    sent its placeholder, the session discards the user after the analyzer
    call; the user is out of the set when the session ends, and the next
    request of that user is accepted: the user is added again and the
    status placeholder for the new address is sent. *)
Theorem analyzer_failure_releases_guard
    {AnalysisResult Response Chain : Type}
    (env : Env AnalysisResult Response Chain) (update : Update)
    (address : str) (u : Z) (st : State) (e : Exn) :
  effective_user update = Some u ->
  u ∉ analyzing_users st ->
  transport env (history st ++ [GuardAdd u])
    (ReplyText (AnalyzingStatus address)) = None ->
  analyze_token env
    ((history st ++ [GuardAdd u]) ++ [ReplyText (AnalyzingStatus address)])
    address = Raise e ->
  let st1 := (analyze_token_address env update address st).2 in
  (exists rest,
     history st1
     = history st
       ++ [GuardAdd u; ReplyText (AnalyzingStatus address);
           AnalyzeToken address]
       ++ rest
     /\ In (GuardDiscard u) rest)
  /\ (u ∉ analyzing_users st1)
  /\ forall update2 address2,
       effective_user update2 = Some u ->
       exists rest,
         history (analyze_token_address env update2 address2 st1).2
         = history st1
           ++ GuardAdd u :: ReplyText (AnalyzingStatus address2) :: rest.
Proof.
  intros Hu Hfree Hup Hfail st1.
  assert (Hfree1 : u ∉ analyzing_users st1).
  { unfold st1.
    rewrite (analyze_token_address_users env update address u st Hu Hfree).
    by rewrite Hup. }
  split; [by apply analyze_token_address_analyzer_fails with e|].
  split; [exact Hfree1|].
  intros update2 address2 Hu2. by apply analyze_token_address_accepted.
Qed.

Lemma analyzer_failure_releases_guard_witness :
  let st1 :=
    (analyze_token_address (env 4096 analyzer_down transport_up)
       (text_update token) token idle).2 in
  (exists rest,
     history st1
     = history idle
       ++ [GuardAdd user; ReplyText (AnalyzingStatus token);
           AnalyzeToken token]
       ++ rest
     /\ In (GuardDiscard user) rest)
  /\ (user ∉ analyzing_users st1)
  /\ forall update2 address2,
       effective_user update2 = Some user ->
       exists rest,
         history
           (analyze_token_address (env 4096 analyzer_down transport_up)
              update2 address2 st1).2
         = history st1
           ++ GuardAdd user :: ReplyText (AnalyzingStatus address2) :: rest.
Proof.
  apply (analyzer_failure_releases_guard
           (env 4096 analyzer_down transport_up) (text_update token)
           token user idle api_error).
  - reflexivity.
  - apply not_elem_of_empty.
  - reflexivity.
  - reflexivity.
Defined.

(** The history of that session. *)
Example analyzer_failure_history :
  history
    (analyze_token_address (env 4096 analyzer_down transport_up)
       (text_update token) token idle).2
  = [GuardAdd user;
     ReplyText (AnalyzingStatus token);
     AnalyzeToken token;
     EditText 1 (AnalysisFailed token (exn_text api_error));
     GuardDiscard user].
Proof. reflexivity. Qed.

(** A callback that carries the data of a refresh button is answered and
    then handled as a refresh of the address of the button. *)
Lemma handle_callback_query_refresh {AnalysisResult Response Chain : Type}
    (env : Env AnalysisResult Response Chain) (update : Update)
    (address : str) (st : State) :
  callback_data update = refresh_callback_data address ->
  handle_callback_query env update st
  = try_except
      (answer_query env;; handle_refresh_callback env update address)
      (fun e =>
         log_error (LogCallbackError (exn_text e));;
         edit_query_message env CallbackErrorNotice)
      st.
Proof.
  intros Hd. unfold handle_callback_query. rewrite Hd.
  unfold refresh_callback_data. rewrite callback_address_refresh.
  reflexivity.
Qed.

(** ** More on the chunker *)

(** Each line adds at most one chunk, and the end of the text one more. *)
Lemma fold_split_step_count (max_length : Z) (ls : list str)
    (chunks : list str) (cur : str) :
  (length (fold_left (split_step max_length) ls (chunks, cur)).1
   <= length chunks + length ls)%nat.
Proof.
  revert chunks cur. induction ls as [|l ls IH]; intros chunks cur.
  - simpl. lia.
  - cbn [fold_left]. unfold split_step at 2.
    destruct (len (cur ++ l ++ [nl]) >? max_length);
      [destruct (truthy cur)|];
      (etransitivity; [apply IH|]); rewrite ?length_app; simpl; lia.
Qed.

(** X1.  When no line of the text is longer than the limit, no chunk is. *)
Theorem chunks_fit_when_lines_fit (text : str) (max_length : Z) :
  Forall (fun l => len l <= max_length) (split nl (-1) text) ->
  Forall (fun c => len c <= max_length) (split_message text max_length).
Proof. apply split_message_bound. Qed.

Lemma chunks_fit_when_lines_fit_witness :
  Forall (fun l => len l <= 3) (split nl (-1) (two_lines "abc" "de"))
  /\ Forall (fun c => len c <= 3) (split_message (two_lines "abc" "de") 3).
Proof.
  assert (H : Forall (fun l => len l <= 3)
                (split nl (-1) (two_lines "abc" "de")))
    by (repeat constructor; discriminate).
  split; [exact H|].
  exact (chunks_fit_when_lines_fit (two_lines "abc" "de") 3 H).
Defined.

(** X2.  Whatever the text and the limit, also a negative one, the chunks
    taken together hold the characters of the text that are not white
    space, all of them and in their order: cutting a line and trimming a
    chunk lose white space only. *)
Theorem chunks_keep_text (text : str) (max_length : Z) :
  List.filter not_space (concat (split_message text max_length))
  = List.filter not_space text.
Proof. apply split_message_keeps_text. Qed.

(** X3.  A text of [n] lines gives at most [n + 1] chunks. *)
Theorem chunk_count_bound (text : str) (max_length : Z) :
  (length (split_message text max_length)
   <= length (split nl (-1) text) + 1)%nat.
Proof.
  unfold split_message.
  pose proof (fold_split_step_count max_length (split nl (-1) text) [] [])
    as H.
  destruct (fold_left _ _ _) as [chunks cur]. cbn [fst] in H. simpl in H.
  destruct (truthy (strip cur)); rewrite ?length_app; simpl; lia.
Qed.

(** ** More on the address predicate *)

Lemma startswith_app (p s : str) :
  startswith p s = true -> s = p ++ skipn (length p) s.
Proof.
  revert s. induction p as [|a p IH]; intros s H; [done|].
  destruct s as [|b s]; [done|]. simpl in H.
  apply andb_true_iff in H as [Hab Hp]. apply Ascii.eqb_eq in Hab. subst b.
  simpl. f_equal. by apply IH.
Qed.

Lemma lstrip_idem (s : str) : lstrip (lstrip s) = lstrip s.
Proof.
  induction s as [|c s IH]; [done|]. simpl.
  destruct (is_space c) eqn:Hc; [exact IH|]. simpl. by rewrite Hc.
Qed.

Lemma rstrip_prefix (s : str) : exists w, s = rstrip s ++ w.
Proof.
  unfold rstrip.
  assert (H : forall t : str, exists p, t = p ++ lstrip t).
  { induction t as [|c t [p Hp]]; [by exists []|]. simpl.
    destruct (is_space c); [|by exists []].
    exists (c :: p). simpl. by rewrite <- Hp. }
  destruct (H (rev s)) as [p Hp]. exists (rev p).
  rewrite <- rev_app_distr, <- Hp. by rewrite rev_involutive.
Qed.

Lemma strip_ends (s : str) : ends_ok (strip s).
Proof.
  split.
  - unfold strip. pose proof (lstrip_idem s) as Hl.
    destruct (rstrip_prefix (lstrip s)) as [w Hw].
    destruct (rstrip (lstrip s)) as [|c r]; [done|].
    rewrite Hw in Hl. simpl in Hl |- *.
    destruct (is_space c); [|done].
    pose proof (lstrip_length (r ++ w)) as Hlen. rewrite Hl in Hlen.
    simpl in Hlen. lia.
  - unfold strip, rstrip. rewrite rev_involutive. apply lstrip_idem.
Qed.

Lemma strip_idem (s : str) : strip (strip s) = strip s.
Proof. apply ends_ok_strip, strip_ends. Qed.

(** X4.  Every text the specification calls a valid address, that is, one
    that trims to [0x] and 40 hexadecimal digits, is accepted. *)
Theorem valid_address_accepted (text : str) :
  spec_is_valid_address text = true -> is_contract_address text = true.
Proof. apply spec_valid_accepted. Qed.

Lemma valid_address_accepted_witness :
  spec_is_valid_address token = true /\ is_contract_address token = true.
Proof.
  split; [reflexivity|]. apply (valid_address_accepted token). reflexivity.
Defined.

Lemma literal_char_hex (c : ascii) :
  is_hex_digit c = true -> literal_char c = true.
Proof. intros H. unfold literal_char. by rewrite H. Qed.

Lemma literal_char_space (c : ascii) :
  c_isspace c = true -> literal_char c = true.
Proof. intros H. unfold literal_char. rewrite H. by rewrite orb_true_r. Qed.

Lemma skip_spaces_literal (s : str) :
  forallb literal_char (skip_spaces s) = true ->
  forallb literal_char s = true.
Proof.
  induction s as [|c s IH]; [done|]. simpl.
  destruct (c_isspace c) eqn:Hc; [|done].
  intros H. by rewrite (literal_char_space c Hc), IH.
Qed.

Lemma skip_spaces_nil_literal (s : str) :
  skip_spaces s = [] -> forallb literal_char s = true.
Proof.
  intros H. apply skip_spaces_literal. by rewrite H.
Qed.

Lemma skip_sign_literal (s : str) :
  forallb literal_char (skip_sign s).2 = true ->
  forallb literal_char s = true.
Proof.
  destruct s as [|c s]; [done|]. unfold skip_sign.
  destruct (Ascii.eqb c "+") eqn:Hp.
  - simpl. intros ->. unfold literal_char. rewrite Hp.
    by rewrite !orb_true_r.
  - destruct (Ascii.eqb c "-") eqn:Hm; [|done].
    simpl. intros ->. unfold literal_char. rewrite Hm.
    by rewrite !orb_true_r.
Qed.

Lemma skip_prefix16_literal (s : str) :
  forallb literal_char (skip_prefix16 s) = true ->
  forallb literal_char s = true.
Proof.
  destruct s as [|z [|x s]]; [done|done|]. unfold skip_prefix16.
  destruct (Ascii.eqb z "0") eqn:Hz; [|done].
  apply Ascii.eqb_eq in Hz. subst z. cbn [andb].
  destruct (Ascii.eqb x "x" || Ascii.eqb x "X") eqn:Hx; [|done].
  assert (Hlx : literal_char x = true).
  { unfold literal_char. apply orb_true_iff in Hx as [->| ->];
      by rewrite !orb_true_r. }
  destruct s as [|u s]; [intros _; simpl; by rewrite Hlx|].
  destruct (Ascii.eqb u "_") eqn:Hu.
  - intros H. cbn [forallb]. rewrite Hlx, H.
    unfold literal_char at 2. rewrite Hu. by rewrite !orb_true_r.
  - intros H. cbn [forallb] in H |- *. by rewrite Hlx, H.
Qed.

Lemma scan_digits_literal (s : str) :
  forall (b : bool) (acc : Z) (n : nat) (v : Z) (n' : nat) (rest : str),
  scan_digits b acc n s = Some (v, n', rest) ->
  forallb literal_char rest = true ->
  forallb literal_char s = true.
Proof.
  induction s as [|c s IH]; intros b acc n v n' rest H Hrest.
  - done.
  - cbn [scan_digits] in H. cbn [forallb].
    destruct (hex_digit_value c) as [d|] eqn:Hd.
    + rewrite literal_char_hex by (unfold is_hex_digit; by rewrite Hd).
      by apply (IH _ _ _ _ _ _ H).
    + destruct (Ascii.eqb c "_") eqn:Hu.
      * destruct b; [done|].
        unfold literal_char at 1. rewrite Hu, !orb_true_r. cbn [andb].
        by apply (IH _ _ _ _ _ _ H).
      * destruct b; [done|]. injection H as _ _ <-. exact Hrest.
Qed.

Lemma to_ascii_digits_address (s : str) :
  forallb literal_char (to_ascii_digits s) = true ->
  forallb address_char s = true.
Proof.
  induction s as [|c s IH]; [done|]. cbn [to_ascii_digits forallb].
  destruct (code c <? 127).
  - cbn [forallb]. intros [Hc Hs]%andb_true_iff.
    unfold address_char at 1. rewrite Hc. by rewrite IH.
  - destruct (is_space c) eqn:Hsp; [|done].
    cbn [forallb]. intros [_ Hs]%andb_true_iff.
    unfold address_char at 1. rewrite Hsp, orb_true_r. by rewrite IH.
Qed.

(** What [int(s, 16)] reads is made of the characters of a literal. *)
Lemma int16_address_chars (s : str) :
  int16 s <> None -> forallb address_char s = true.
Proof.
  unfold int16. intros H. apply to_ascii_digits_address, skip_spaces_literal.
  destruct (skip_sign (skip_spaces (to_ascii_digits s))) as [sign s2] eqn:Es.
  apply skip_sign_literal. rewrite Es. cbn [snd].
  apply skip_prefix16_literal.
  destruct (startswith ["_"%char] (skip_prefix16 s2)); [done|].
  destruct (scan_digits false 0 0 (skip_prefix16 s2))
    as [[[v n] rest]|] eqn:Ed; [|done].
  apply (scan_digits_literal _ _ _ _ _ _ _ Ed).
  destruct (Nat.eqb n 0); [done|].
  destruct (skip_spaces rest) eqn:Er; [|done].
  by apply skip_spaces_nil_literal.
Qed.

(** X5.  For a text of characters below U+0100, the range of [str]: an
    accepted text trims to exactly 42 characters that start with [0x], and
    every one of them is a hexadecimal digit, [x] or [X], a sign, an
    underscore or white space; a text of that range with any other
    character, a letter past [f] say, is turned down.  (Beyond that range
    [int] also reads the decimal digits of other scripts, which [str] does
    not hold.) *)
Theorem accepted_address_chars (text : str) :
  is_contract_address text = true ->
  len (strip text) = 42
  /\ startswith (py "0x") (strip text) = true
  /\ forallb address_char (strip text) = true.
Proof.
  intros H. apply is_contract_address_shape in H as (Hlen & Hpre & Hint).
  split; [done|]. split; [done|].
  apply startswith_app in Hpre. rewrite Hpre.
  rewrite forallb_app. apply int16_address_chars in Hint.
  simpl length. by rewrite Hint.
Qed.

Lemma accepted_address_chars_witness :
  len (strip signed_token) = 42
  /\ startswith (py "0x") (strip signed_token) = true
  /\ forallb address_char (strip signed_token) = true.
Proof. apply (accepted_address_chars signed_token). reflexivity. Defined.

(** X6.  White space around the text does not change the verdict: the
    check gives the same answer on a text and on its trimmed form, so that
    [handle_message], which trims first, loses nothing. *)
Theorem address_check_ignores_outer_space (text : str) :
  is_contract_address (strip text) = is_contract_address text.
Proof.
  unfold is_contract_address. rewrite strip_idem.
  destruct (truthy text) eqn:Ht.
  - destruct (truthy (strip text)) eqn:Hs; [done|].
    apply truthy_false_iff in Hs. by rewrite Hs.
  - apply truthy_false_iff in Ht. by subst text.
Qed.

(** ** More on the refresh token *)

(** X7.  Every payload that passes the [refresh:] test has an address to
    read: indexing the split never fails, and the address is all that
    follows the prefix, further colons included. *)
Theorem callback_address_prefixed (data : str) :
  startswith (py "refresh:") data = true ->
  callback_address data = Ok (skipn 8 data).
Proof.
  intros H. apply startswith_app in H. rewrite H at 1.
  apply callback_address_refresh.
Qed.

Lemma callback_address_prefixed_witness :
  callback_address (py "refresh:a:b") = Ok (py "a:b").
Proof.
  apply (callback_address_prefixed (py "refresh:a:b")). reflexivity.
Defined.

(** ** More on the sessions *)

#[local] Hint Extern 1 (within_limit _ _) => exact I : frames.
#[local] Hint Extern 1 (refresh_event _ _) => first [exact I | reflexivity]
  : frames.

Section MoreSessions.

Context {AnalysisResult Response Chain : Type}.
Variable env : Env AnalysisResult Response Chain.

(** A handler that cannot raise an [Exception] lets none escape. *)
Lemma try_except_no_exception {A : Type} (body : M A) (handler : Exn -> M A)
    (st : State) :
  (forall e st', no_exception (handler e st').1) ->
  no_exception (try_except body handler st).1.
Proof.
  intros Hh. unfold try_except.
  destruct (body st) as [[a|e] st']; [done|].
  destruct (catchable e) eqn:He; [apply Hh | exact He].
Qed.

Lemma analyze_token_address_no_user (update : Update) (address : str)
    (st : State) :
  effective_user update = None ->
  history (analyze_token_address env update address st).2
  = history st ++ [ReplyText AnalysisErrorNotice]
  /\ analyzing_users (analyze_token_address env update address st).2
     = analyzing_users st.
Proof.
  intros Hu.
  assert (E : exists o,
    analyze_token_address env update address st
    = (o, {| analyzing_users := analyzing_users st;
             history := history st ++ [ReplyText AnalysisErrorNotice];
             log := log st ++ [LogTokenAnalysisError
                                 (py "'NoneType' object has no attribute 'id'")]
          |})).
  { unfold analyze_token_address, try_except, effective_user_id.
    rewrite Hu. unfold mbind at 1, M_bind at 1, lift at 1. cbn [catchable].
    unfold log_error, reply_text, perform, mbind, M_bind.
    cbn [history exn_text].
    destruct (transport env (history st) _); eexists; reflexivity. }
  destruct E as [o ->]. done.
Qed.

Lemma analyze_token_address_busy_any (update : Update) (address : str)
    (u : Z) (st : State) :
  effective_user update = Some u ->
  u ∈ analyzing_users st ->
  analyzing_users (analyze_token_address env update address st).2
  = analyzing_users st
  /\ exists rest,
       history (analyze_token_address env update address st).2
       = history st ++ ReplyText AlreadyInProgress :: rest
       /\ (rest = [] \/ rest = [ReplyText AnalysisErrorNotice]).
Proof.
  intros Hu Hbusy.
  assert (E : analyze_token_address env update address st
              = try_except (reply_text env AlreadyInProgress;; mret tt)
                  (fun e =>
                     log_error (LogTokenAnalysisError (exn_text e));;
                     reply_text env AnalysisErrorNotice;; mret tt) st).
  { unfold analyze_token_address, try_except, effective_user_id.
    rewrite Hu.
    unfold mbind at 1, M_bind at 1, lift at 1.
    unfold mbind at 1, M_bind at 1, guard_contains at 1.
    by rewrite bool_decide_eq_true_2 by done. }
  rewrite E. clear E.
  unfold try_except, log_error, reply_text, perform, mbind, M_bind.
  destruct (transport env (history st) _) as [x|].
  - destruct (catchable x).
    + cbn [history record_event].
      destruct (transport env _ _); (split; [done|]);
        exists [ReplyText AnalysisErrorNotice];
        (split; [|by right]); simpl; by rewrite <- app_assoc.
    + split; [done|]. exists []. split; [done | by left].
  - split; [done|]. exists []. split; [done | by left].
Qed.

(** X8.  A request of a user who is in the set is answered with the wait
    notice.  The error notice follows exactly when sending the wait notice
    raised an [Exception], and nothing else follows: the set stays as it is,
    and neither the status placeholder nor the analyzer is reached. *)
Theorem busy_user_told_to_wait (update : Update) (address : str) (u : Z)
    (st : State) :
  effective_user update = Some u ->
  u ∈ analyzing_users st ->
  analyzing_users (analyze_token_address env update address st).2
  = analyzing_users st
  /\ history (analyze_token_address env update address st).2
     = history st
       ++ ReplyText AlreadyInProgress
       :: notice_after
            (transport env (history st) (ReplyText AlreadyInProgress))
            (ReplyText AnalysisErrorNotice).
Proof.
  intros Hu Hbusy.
  assert (E : analyze_token_address env update address st
              = try_except (reply_text env AlreadyInProgress;; mret tt)
                  (fun e =>
                     log_error (LogTokenAnalysisError (exn_text e));;
                     reply_text env AnalysisErrorNotice;; mret tt) st).
  { unfold analyze_token_address, try_except, effective_user_id.
    rewrite Hu.
    unfold mbind at 1, M_bind at 1, lift at 1.
    unfold mbind at 1, M_bind at 1, guard_contains at 1.
    by rewrite bool_decide_eq_true_2 by done. }
  rewrite E. clear E.
  unfold try_except, log_error, reply_text, perform, mbind, M_bind.
  unfold notice_after.
  destruct (transport env (history st) (ReplyText AlreadyInProgress))
    as [x|]; [|done].
  destruct (catchable x); [|done].
  cbn [history record_event].
  destruct (transport env _ (ReplyText AnalysisErrorNotice));
    (split; [done|]); simpl; by rewrite <- app_assoc.
Qed.

(** X9.  Once the status placeholder has gone out, the session gives the
    set back as it found it, whatever the analyzer, the formatter and the
    transport do afterwards, and whether or not what they raise is an
    [Exception]. *)
Theorem guard_restored_after_session (update : Update) (address : str)
    (u : Z) (st : State) :
  effective_user update = Some u ->
  u ∉ analyzing_users st ->
  transport env (history st ++ [GuardAdd u])
    (ReplyText (AnalyzingStatus address)) = None ->
  analyzing_users (analyze_token_address env update address st).2
  = analyzing_users st.
Proof.
  intros Hu Hfree Hup.
  rewrite (analyze_token_address_users env update address u st Hu Hfree).
  by rewrite Hup.
Qed.

(** X10.  A request changes the membership of no user but its own. *)
Theorem session_leaves_other_users (update : Update) (address : str)
    (v : Z) (st : State) :
  effective_user update <> Some v ->
  v ∈ analyzing_users (analyze_token_address env update address st).2
  <-> v ∈ analyzing_users st.
Proof.
  intros Hv. destruct (effective_user update) as [u|] eqn:Hu.
  - destruct (decide (u ∈ analyzing_users st)) as [Hin|Hout].
    + destruct (analyze_token_address_busy_any update address u st Hu Hin)
        as [-> _]. done.
    + rewrite (analyze_token_address_users env update address u st Hu Hout).
      destruct (transport env _ _); [|done].
      rewrite elem_of_union, elem_of_singleton. split; [|by right].
      intros [->|H]; [done | exact H].
  - destruct (analyze_token_address_no_user update address st Hu)
      as [_ ->]. done.
Qed.

(** X11.  An update without a user is answered with the error notice alone:
    the failed read of the user id is caught before the set is read. *)
Theorem session_without_user (update : Update) (address : str) (st : State) :
  effective_user update = None ->
  history (analyze_token_address env update address st).2
  = history st ++ [ReplyText AnalysisErrorNotice]
  /\ analyzing_users (analyze_token_address env update address st).2
     = analyzing_users st.
Proof. apply analyze_token_address_no_user. Qed.

(** X12.  All a request for [address] does is of the kinds [session_event]
    lists.  So the analyzer is called on no other address, the only edit is
    the failure notice for that address, and neither the usage notice nor
    the rejection of an invalid address is sent. *)
Theorem session_events_confined (update : Update) (address : str)
    (st : State) :
  exists evs,
    history (analyze_token_address env update address st).2
    = history st ++ evs
    /\ Forall (session_event address) evs.
Proof. apply analyze_token_address_appends. Qed.

(** X13.  No [Exception] leaves a request as long as the error notice can
    be delivered: what the analyzer, the formatter or the transport raise
    is caught on the way. *)
Theorem session_contains_exceptions (update : Update) (address : str)
    (st : State) :
  (forall h, transport env h (ReplyText AnalysisErrorNotice) = None) ->
  no_exception (analyze_token_address env update address st).1.
Proof.
  intros Hup. unfold analyze_token_address.
  apply try_except_no_exception. intros e st'.
  unfold log_error, reply_text, perform, mbind, M_bind. cbn [history].
  by rewrite Hup.
Qed.

(** X14.  Free text that is not an address gets the rejection and nothing
    else: no user is added and no analyzer is called. *)
Theorem invalid_text_rejected (update : Update) (st : State) :
  is_contract_address (strip (message_text update)) = false ->
  history (handle_message env update st).2
  = history st ++ [ReplyText InvalidAddressPrompt]
  /\ analyzing_users (handle_message env update st).2 = analyzing_users st.
Proof. apply handle_message_rejects. Qed.

Lemma add_action_buttons_panel (update : Update) (address : str)
    (response : Response) (st : State) :
  exists rest,
    history (add_action_buttons env update address response st).2
    = history st ++ rest
    /\ (rest = []
        \/ exists rows,
             rest = [SendMessage (effective_chat_id update) QuickActions
                       (Some (rows ++ [[CallbackButton
                                          (refresh_callback_data address)]]))]
             /\ (rows = [] \/ exists url, rows = [[UrlButton url]])).
Proof.
  unfold add_action_buttons, try_except, send_message, perform, log_error.
  unfold mbind, M_bind, lift, mret, M_ret.
  destruct (basic_info_chain env response) as [[chain|]|e].
  - destruct (get_explorer_url env chain address) as [url|e].
    + exists [SendMessage (effective_chat_id update) QuickActions
                (Some ([[UrlButton url]]
                       ++ [[CallbackButton (refresh_callback_data address)]]))].
      split.
      * cbn [app]. destruct (transport env _ _) as [x|]; [|done].
        by destruct (catchable x).
      * right. exists [[UrlButton url]]. split; [done|]. right. by exists url.
    + exists []. split; [|by left]. rewrite app_nil_r.
      by destruct (catchable e).
  - exists [SendMessage (effective_chat_id update) QuickActions
              (Some ([] ++ [[CallbackButton
                               (refresh_callback_data address)]]))].
    split.
    + cbn [app]. destruct (transport env _ _) as [x|]; [|done].
      by destruct (catchable x).
    + right. exists []. split; [done | by left].
  - exists []. split; [|by left]. rewrite app_nil_r.
    by destruct (catchable e).
Qed.

(** X15.  The action panel, when [add_action_buttons] gets as far as
    sending it, is one message whose last row is the refresh button for the
    analysed address, below at most one row with the explorer link. *)
Theorem action_panel_shape (update : Update) (address : str)
    (response : Response) (st : State) :
  exists rest,
    history (add_action_buttons env update address response st).2
    = history st ++ rest
    /\ (rest = []
        \/ exists rows,
             rest = [SendMessage (effective_chat_id update) QuickActions
                       (Some (rows ++ [[CallbackButton
                                          (refresh_callback_data address)]]))]
             /\ (rows = [] \/ exists url, rows = [[UrlButton url]])).
Proof. apply add_action_buttons_panel. Qed.

(** X16.  [add_action_buttons] lets no [Exception] out: a failed chain
    lookup, explorer link or send is logged and dropped, so it cannot turn a
    delivered result into the formatting error. *)
Theorem action_buttons_never_raise (update : Update) (address : str)
    (response : Response) (st : State) :
  no_exception (add_action_buttons env update address response st).1.
Proof. unfold add_action_buttons. by apply try_except_no_exception. Qed.

Lemma send_chunk_step (update : Update) (i : nat) (chunk : str) :
  (if Nat.eqb i 0 then reply_text env (Plain chunk);; mret tt
   else send_message env (effective_chat_id update) (Plain chunk) None)
  = (perform env (chunk_event update i chunk);; mret tt).
Proof. unfold chunk_event. by destruct (Nat.eqb i 0). Qed.

(** The loop stops at the first chunk the transport refuses. *)
Lemma send_chunks_stops (update : Update) (pre : list str) (c : str)
    (post : list str) (x : Exn) :
  forall (i : nat) (st : State),
  (forall k e,
     chunk_events update i pre !! k = Some e ->
     transport env (history st ++ take k (chunk_events update i pre)) e
     = None) ->
  transport env (history st ++ chunk_events update i pre)
    (chunk_event update (i + length pre) c) = Some x ->
  send_chunks env update i (pre ++ c :: post) st
  = (Raise x,
     emit (chunk_events update i pre
           ++ [chunk_event update (i + length pre) c]) st).
Proof.
  induction pre as [|p pre IH]; intros i st Hok Hfail.
  - cbn [app send_chunks]. rewrite send_chunk_step.
    unfold mbind, M_bind, perform.
    cbn [chunk_events length] in Hfail.
    rewrite app_nil_r, Nat.add_0_r in Hfail. rewrite Nat.add_0_r.
    by rewrite Hfail.
  - cbn [app send_chunks]. rewrite send_chunk_step.
    unfold mbind at 1, M_bind at 1. unfold mbind at 1, M_bind at 1, perform.
    pose proof (Hok 0%nat (chunk_event update i p) eq_refl) as H0.
    cbn [take] in H0. rewrite app_nil_r in H0. rewrite H0.
    cbn [mret M_ret].
    rewrite (IH (S i) (record_event (chunk_event update i p) st)).
    + change (record_event (chunk_event update i p) st)
        with (emit [chunk_event update i p] st).
      rewrite emit_emit. cbn [length chunk_events app].
      by rewrite Nat.add_succ_r.
    + intros k e Hk. cbn [history record_event]. rewrite <- app_assoc.
      apply (Hok (S k) e Hk).
    + cbn [history record_event]. rewrite <- app_assoc.
      cbn [length chunk_events] in Hfail. rewrite Nat.add_succ_r in Hfail.
      exact Hfail.
Qed.

(** X17.  When the transport refuses a chunk with an [Exception], the
    chunks before it have been sent in order, no later chunk is tried, and
    the user gets the sending-error notice. *)
Theorem long_message_stops_at_failure (update : Update) (message : str)
    (st : State) (pre : list str) (c : str) (post : list str) (x : Exn) :
  split_message message (MAX_MESSAGE_LENGTH env - 100) = pre ++ c :: post ->
  (forall k e,
     chunk_events update 0 pre !! k = Some e ->
     transport env (history st ++ take k (chunk_events update 0 pre)) e
     = None) ->
  transport env (history st ++ chunk_events update 0 pre)
    (chunk_event update (length pre) c) = Some x ->
  catchable x = true ->
  history (send_long_message env update message st).2
  = history st
    ++ chunk_events update 0 pre
    ++ [chunk_event update (length pre) c; ReplyText SendErrorNotice].
Proof.
  intros Hsplit Hok Hfail Hx.
  unfold send_long_message, try_except. cbv zeta. rewrite Hsplit.
  rewrite (send_chunks_stops update pre c post x 0 st Hok Hfail), Hx.
  unfold log_error, reply_text, perform, mbind, M_bind.
  cbn [history emit].
  destruct (transport env _ (ReplyText SendErrorNotice));
    simpl; by rewrite <- !app_assoc.
Qed.

Lemma send_chunks_within (limit : Z) (update : Update) (chunks : list str) :
  Forall (fun c => len c <= limit) chunks ->
  forall i, appends (within_limit limit) (send_chunks env update i chunks).
Proof.
  induction 1 as [|c cs Hc _ IH]; intros i; cbn [send_chunks].
  - apply appends_ret.
  - rewrite send_chunk_step. apply appends_bind; [|intros _; apply IH].
    apply appends_bind; [|intros _; apply appends_ret].
    apply appends_perform. unfold chunk_event.
    by destruct (Nat.eqb i 0).
Qed.

(** X18.  When no line of the text is longer than [MAX_MESSAGE_LENGTH - 100],
    every chunk [send_long_message] hands to the transport has at most that
    many characters. *)
Theorem long_message_within_limit (update : Update) (message : str)
    (st : State) :
  Forall (fun l => len l <= MAX_MESSAGE_LENGTH env - 100)
    (split nl (-1) message) ->
  exists evs,
    history (send_long_message env update message st).2 = history st ++ evs
    /\ Forall (within_limit (MAX_MESSAGE_LENGTH env - 100)) evs.
Proof.
  intros Hlines. revert st.
  change (appends (within_limit (MAX_MESSAGE_LENGTH env - 100))
            (send_long_message env update message)).
  unfold send_long_message. apply appends_try_except.
  - cbv zeta. by apply send_chunks_within, split_message_bound.
  - intros e. frame.
Qed.

(** X19.  Delivering a result sends replies and new messages only: it edits
    no message, calls no analyzer and leaves the set alone. *)
Theorem delivery_frame (update : Update) (response : Response)
    (address : str) (st : State) :
  (exists evs,
     history (send_analysis_results env update response address st).2
     = history st ++ evs
     /\ Forall delivery_event evs)
  /\ analyzing_users (send_analysis_results env update response address st).2
     = analyzing_users st.
Proof.
  split.
  - apply send_analysis_results_appends.
  - apply send_analysis_results_keeps.
Qed.

Lemma starts_perform (e : Event) : starts_with e (perform env e).
Proof.
  intros st. exists []. unfold perform.
  by destruct (transport env (history st) e).
Qed.

Lemma starts_bind {A B : Type} (e : Event) (m : M A) (k : A -> M B) :
  starts_with e m -> (forall a, appends (fun _ => True) (k a)) ->
  starts_with e (m ≫= k).
Proof.
  intros Hm Hk st. unfold mbind, M_bind. destruct (Hm st) as [rest Hr].
  destruct (m st) as [[a|x] st1]; cbn [snd] in Hr; [|by exists rest].
  destruct (Hk a st1) as (evs & He & _). exists (rest ++ evs).
  by rewrite He, Hr, <- app_assoc.
Qed.

Lemma starts_try_except {A : Type} (e : Event) (body : M A)
    (handler : Exn -> M A) :
  starts_with e body -> (forall x, appends (fun _ => True) (handler x)) ->
  starts_with e (try_except body handler).
Proof.
  intros Hm Hk st. unfold try_except. destruct (Hm st) as [rest Hr].
  destruct (body st) as [[a|x] st1]; cbn [snd] in Hr; [by exists rest|].
  destruct (catchable x); [|by exists rest].
  destruct (Hk x st1) as (evs & He & _). exists (rest ++ evs).
  by rewrite He, Hr, <- app_assoc.
Qed.

Lemma handle_refresh_callback_appends (update : Update) (address : str) :
  appends (refresh_event address) (handle_refresh_callback env update address).
Proof. unfold handle_refresh_callback. frame. Qed.

Lemma handle_refresh_callback_keeps (update : Update) (address : str) :
  keeps_users (handle_refresh_callback env update address).
Proof. unfold handle_refresh_callback. frame. Qed.

(** X20.  Whatever the payload, the callback is acknowledged before
    anything else is done. *)
Theorem callback_acknowledged_first (update : Update) (st : State) :
  exists rest,
    history (handle_callback_query env update st).2
    = history st ++ AnswerQuery :: rest.
Proof.
  revert st.
  change (starts_with AnswerQuery (handle_callback_query env update)).
  unfold handle_callback_query, answer_query.
  apply starts_try_except.
  - apply starts_bind.
    + apply starts_bind; [apply starts_perform|]. intros _. apply appends_ret.
    + intros _. cbv zeta.
      destruct (startswith (py "refresh:") (callback_data update));
        [|apply appends_ret].
      apply appends_bind; [apply appends_lift|]. intros address.
      eapply appends_weaken; [|apply handle_refresh_callback_appends]. done.
  - intros x. frame.
Qed.

Lemma ignores_ret {A : Type} (a : A) : ignores_users (mret a).
Proof. done. Qed.

Lemma ignores_lift {A : Type} (o : Outcome A) : ignores_users (lift o).
Proof. done. Qed.

Lemma ignores_log_error (l : LogLine) : ignores_users (log_error l).
Proof. done. Qed.

Lemma ignores_perform (e : Event) : ignores_users (perform env e).
Proof.
  intros users st. unfold perform. cbn [history with_users].
  by destruct (transport env (history st) e).
Qed.

Lemma ignores_call_analyze_token (address : str) :
  ignores_users (call_analyze_token env address).
Proof. done. Qed.

Lemma ignores_bind {A B : Type} (m : M A) (k : A -> M B) :
  ignores_users m -> (forall a, ignores_users (k a)) ->
  ignores_users (m ≫= k).
Proof.
  intros Hm Hk users st. unfold mbind, M_bind. rewrite Hm.
  destruct (m st) as [[a|e] st1]; cbn [fst snd]; [apply Hk | done].
Qed.

Lemma ignores_try_except {A : Type} (body : M A) (handler : Exn -> M A) :
  ignores_users body -> (forall e, ignores_users (handler e)) ->
  ignores_users (try_except body handler).
Proof.
  intros Hm Hk users st. unfold try_except. rewrite Hm.
  destruct (body st) as [[a|e] st1]; cbn [fst snd]; [done|].
  destruct (catchable e); [apply Hk | done].
Qed.

Ltac ignores :=
  repeat first
    [ apply ignores_ret
    | apply ignores_lift
    | apply ignores_log_error
    | apply ignores_perform
    | apply ignores_call_analyze_token
    | progress cbv zeta
    | match goal with
      | |- ignores_users (if ?b then _ else _) => destruct b
      | |- ignores_users (match ?x with _ => _ end) => destruct x
      end
    | apply ignores_bind; [|intros ?]
    | apply ignores_try_except; [|intros ?] ].

Lemma handle_callback_query_ignores (update : Update) :
  ignores_users (handle_callback_query env update).
Proof. unfold handle_callback_query. ignores. Qed.

Lemma handle_callback_query_keeps (update : Update) :
  keeps_users (handle_callback_query env update).
Proof.
  unfold handle_callback_query.
  pose proof handle_refresh_callback_keeps. frame.
Qed.

(** X21.  A callback, refresh or not, neither reads nor writes the set of
    analysing users.  Run on a state with any other set, the handler gives
    the same outcome, the same history and the same log, so a refresh is
    not held back by an analysis in progress; and the set is afterwards
    what it was. *)
Theorem callback_leaves_guard (update : Update) (users : gset Z)
    (st : State) :
  handle_callback_query env update (with_users users st)
  = ((handle_callback_query env update st).1,
     with_users users (handle_callback_query env update st).2)
  /\ analyzing_users (handle_callback_query env update st).2
     = analyzing_users st.
Proof.
  split.
  - apply handle_callback_query_ignores.
  - apply handle_callback_query_keeps.
Qed.

(** X22.  A payload that does not start with [refresh:] is acknowledged and
    otherwise ignored.  The message is edited to the error notice exactly
    when the acknowledgement raised an [Exception]; nothing else is done,
    and the set is left alone. *)
Theorem other_callback_ignored (update : Update) (st : State) :
  startswith (py "refresh:") (callback_data update) = false ->
  history (handle_callback_query env update st).2
  = history st
    ++ AnswerQuery
    :: notice_after (transport env (history st) AnswerQuery)
         (EditQueryMessage CallbackErrorNotice)
  /\ analyzing_users (handle_callback_query env update st).2
     = analyzing_users st.
Proof.
  intros Hd. split; [|apply handle_callback_query_keeps].
  unfold handle_callback_query. cbv zeta. rewrite Hd.
  unfold try_except, answer_query, edit_query_message, log_error, perform.
  unfold mbind, M_bind, mret, M_ret, notice_after.
  destruct (transport env (history st) AnswerQuery) as [x|]; [|done].
  destruct (catchable x); [|done].
  cbn [history record_event].
  destruct (transport env _ (EditQueryMessage CallbackErrorNotice));
    simpl; by rewrite <- app_assoc.
Qed.

(** X23.  A refresh that goes through edits the message twice, once to the
    progress notice and once to the new text, with the analyzer call in
    between.  The text is written in one piece whatever its length: a
    refresh has no chunking branch. *)
Theorem refresh_edits_in_place (update : Update) (address message : str)
    (result : AnalysisResult) (response : Response) (st : State) :
  (forall h e, transport env h e = None) ->
  analyze_token env (history st ++ [EditQueryMessage (Refreshing address)])
    address = Ok result ->
  format_token_analysis env result = Ok response ->
  to_telegram_message env response = Ok message ->
  handle_refresh_callback env update address st
  = (Ok tt,
     emit [EditQueryMessage (Refreshing address);
           AnalyzeToken address;
           EditQueryMessage (Plain message)] st).
Proof.
  intros Hup Ha Hf Hm.
  unfold handle_refresh_callback, try_except, edit_query_message.
  unfold call_analyze_token, lift, mbind, M_bind.
  rewrite perform_up by done. cbn [mret M_ret history emit].
  rewrite Ha, Hf, Hm. rewrite perform_up by done.
  cbn [mret M_ret]. unfold emit, record_event. simpl.
  by rewrite <- !app_assoc.
Qed.

(** X24.  When the analyzer raises an [Exception] during a refresh, the
    message is edited to the refresh-error notice, and no text is written. *)
Theorem refresh_failure_notice (update : Update) (address : str) (e : Exn)
    (st : State) :
  transport env (history st) (EditQueryMessage (Refreshing address)) = None ->
  analyze_token env (history st ++ [EditQueryMessage (Refreshing address)])
    address = Raise e ->
  catchable e = true ->
  history (handle_refresh_callback env update address st).2
  = history st
    ++ [EditQueryMessage (Refreshing address);
        AnalyzeToken address;
        EditQueryMessage RefreshErrorNotice].
Proof.
  intros Hup Ha He.
  unfold handle_refresh_callback, try_except, edit_query_message.
  unfold call_analyze_token, log_error, lift, perform.
  unfold mbind, M_bind, mret, M_ret.
  rewrite Hup. cbn [history record_event]. rewrite Ha, He.
  cbn [history].
  destruct (transport env _ (EditQueryMessage RefreshErrorNotice));
    simpl; by rewrite <- !app_assoc.
Qed.

(** X25.  All a refresh of [address] does is edit the message the button
    sits on and call the analyzer on that address: it sends no reply and no
    new message, so no action panel either, and it leaves the set alone. *)
Theorem refresh_events_confined (update : Update) (address : str)
    (st : State) :
  (exists evs,
     history (handle_refresh_callback env update address st).2
     = history st ++ evs
     /\ Forall (refresh_event address) evs)
  /\ analyzing_users (handle_refresh_callback env update address st).2
     = analyzing_users st.
Proof.
  split.
  - apply handle_refresh_callback_appends.
  - apply handle_refresh_callback_keeps.
Qed.

Lemma starts_call_analyze_token (address : str) :
  starts_with (AnalyzeToken address) (call_analyze_token env address).
Proof. intros st. by exists []. Qed.

Lemma starts_try_finally {A : Type} (e : Event) (body : M A)
    (cleanup : M unit) :
  starts_with e body -> appends (fun _ => True) cleanup ->
  starts_with e (try_finally body cleanup).
Proof.
  intros Hm Hk st. unfold try_finally. destruct (Hm st) as [rest Hr].
  destruct (body st) as [r st1]. cbn [snd] in Hr.
  destruct (Hk st1) as (evs & He & _). exists (rest ++ evs).
  destruct (cleanup st1) as [[[]|x] st2]; cbn [snd] in He |- *;
    by rewrite He, Hr, <- app_assoc.
Qed.

Lemma appends_any {A : Type} (P : Event -> Prop) (m : M A) :
  appends P m -> appends (fun _ => True) m.
Proof. by apply appends_weaken. Qed.

#[local] Hint Resolve send_analysis_results_appends
  send_analysis_results_keeps : frames.

(** Once the status placeholder is out, the analyzer is called on the
    address of the request. *)
Lemma analyze_token_address_analyzes (update : Update) (address : str)
    (u : Z) (st : State) :
  effective_user update = Some u ->
  u ∉ analyzing_users st ->
  transport env (history st ++ [GuardAdd u])
    (ReplyText (AnalyzingStatus address)) = None ->
  exists rest,
    history (analyze_token_address env update address st).2
    = history st
      ++ GuardAdd u :: ReplyText (AnalyzingStatus address)
      :: AnalyzeToken address :: rest.
Proof.
  intros Hu Hfree Hup.
  rewrite (analyze_token_address_free env update address u st Hu Hfree).
  set (st1 := {| analyzing_users := _ |}).
  assert (Hs : exists r st2 rest,
    analysis_session env update address u st1 = (r, st2)
    /\ history st2
       = history st
         ++ GuardAdd u :: ReplyText (AnalyzingStatus address)
         :: AnalyzeToken address :: rest).
  { unfold analysis_session, reply_text, perform.
    unfold mbind at 1, M_bind at 1.
    change (history st1) with (history st ++ [GuardAdd u]). rewrite Hup.
    match goal with |- context [try_finally ?b ?c ?s] =>
      assert (Ha : starts_with (AnalyzeToken address) (try_finally b c));
      [|destruct (Ha s) as (rest & Hr);
        destruct (try_finally b c s) as [r st2]]
    end.
    { apply starts_try_finally;
        [|apply (appends_any (session_event address)); frame].
      apply starts_try_except.
      - apply starts_bind; [apply starts_call_analyze_token|].
        intros result. apply (appends_any (session_event address)). frame.
      - intros x. apply (appends_any (session_event address)). frame. }
    exists r, st2, rest. split; [reflexivity|].
    cbn [snd] in Hr. rewrite Hr. unfold st1. cbn [history record_event].
    by rewrite <- !app_assoc. }
  destruct Hs as (r & st2 & rest & Hs & Hh).
  unfold try_except. rewrite Hs.
  destruct r as [[]|x]; [by exists rest|].
  destruct (catchable x); [|by exists rest].
  match goal with |- context [history (?h ?s).2] =>
    assert (Ha : appends (session_event address) h) by frame;
    destruct (Ha s) as (evs & He & _)
  end.
  exists (rest ++ evs). rewrite He, Hh, <- app_assoc. reflexivity.
Qed.

Section Success.

Hypothesis transport_up : forall h e, transport env h e = None.

Lemma send_analysis_results_exact (update : Update) (response : Response)
    (address message : str) (st : State) :
  to_telegram_message env response = Ok message ->
  exists o st' panel,
    send_analysis_results env update response address st = (o, st')
    /\ history st'
       = history st
         ++ delivery_events (MAX_MESSAGE_LENGTH env)
              (effective_chat_id update) message
         ++ panel
    /\ (panel = []
        \/ exists rows,
             panel = [SendMessage (effective_chat_id update) QuickActions
                        (Some (rows ++ [[CallbackButton
                                           (refresh_callback_data address)]]))])
    /\ no_exception o.
Proof.
  intros Hm. unfold send_analysis_results, try_except. rewrite Hm.
  unfold mbind at 1, M_bind at 1, lift at 1.
  unfold mbind at 1, M_bind at 1.
  rewrite (deliver_up env transport_up).
  set (st1 := emit _ st).
  destruct (add_action_buttons_panel update address response st1)
    as (panel & Hh & Hp).
  assert (Hn : no_exception
                 (add_action_buttons env update address response st1).1)
    by (unfold add_action_buttons; by apply try_except_no_exception).
  assert (Hpanel : panel = []
    \/ exists rows,
         panel = [SendMessage (effective_chat_id update) QuickActions
                    (Some (rows ++ [[CallbackButton
                                       (refresh_callback_data address)]]))]).
  { destruct Hp as [->|(rows & -> & _)]; [by left | right; by exists rows]. }
  destruct (add_action_buttons env update address response st1)
    as [[[]|e] st2]; cbn [fst snd] in Hh, Hn.
  - exists (Ok tt), st2, panel. split; [done|].
    split; [|split; [exact Hpanel | exact I]].
    rewrite Hh. unfold st1. cbn [history emit]. by rewrite <- app_assoc.
  - cbn [no_exception] in Hn. rewrite Hn. exists (Raise e), st2, panel.
    split; [done|]. split; [|split; [exact Hpanel | exact Hn]].
    rewrite Hh. unfold st1. cbn [history emit]. by rewrite <- app_assoc.
Qed.

(** X26.  A session in which every collaborator answers runs in this order:
    the user is added, the status placeholder is sent, the analyzer is
    called, the text is delivered, the action panel follows, and the user is
    discarded last; the set is then as it was before. *)
Theorem session_delivers_and_releases (update : Update) (address : str)
    (u : Z) (result : AnalysisResult) (response : Response) (message : str)
    (st : State) :
  effective_user update = Some u ->
  u ∉ analyzing_users st ->
  analyze_token env
    ((history st ++ [GuardAdd u]) ++ [ReplyText (AnalyzingStatus address)])
    address = Ok result ->
  format_token_analysis env result = Ok response ->
  to_telegram_message env response = Ok message ->
  (exists panel,
     history (analyze_token_address env update address st).2
     = history st
       ++ [GuardAdd u; ReplyText (AnalyzingStatus address);
           AnalyzeToken address]
       ++ delivery_events (MAX_MESSAGE_LENGTH env)
            (effective_chat_id update) message
       ++ panel ++ [GuardDiscard u]
     /\ (panel = []
         \/ exists rows,
              panel = [SendMessage (effective_chat_id update) QuickActions
                         (Some (rows ++ [[CallbackButton
                                            (refresh_callback_data
                                               address)]]))]))
  /\ analyzing_users (analyze_token_address env update address st).2
     = analyzing_users st.
Proof.
  intros Hu Hfree Ha Hf Hm. split.
  - rewrite (analyze_token_address_free env update address u st Hu Hfree).
    set (st1 := {| analyzing_users := _ |}).
    unfold try_except at 1.
    unfold analysis_session, reply_text.
    unfold mbind at 1, M_bind at 1. rewrite (perform_up env transport_up).
    unfold try_finally, try_except at 1.
    unfold mbind at 1, M_bind at 1, call_analyze_token.
    change (history (emit [ReplyText (AnalyzingStatus address)] st1))
      with ((history st ++ [GuardAdd u])
            ++ [ReplyText (AnalyzingStatus address)]).
    rewrite Ha. unfold mbind at 1, M_bind at 1, lift at 1. rewrite Hf.
    set (st2 := record_event _ _).
    destruct (send_analysis_results_exact update response address message
                st2 Hm) as (o & st3 & panel & -> & Hh & Hp & Hn).
    exists panel. split; [|exact Hp].
    destruct o as [[]|e]; cbn [no_exception] in Hn.
    + cbn [guard_discard snd history]. rewrite Hh. unfold st2, st1.
      cbn [history record_event emit]. by rewrite <- !app_assoc.
    + rewrite Hn. cbn [guard_discard snd history]. rewrite Hn.
      cbn [snd history]. rewrite Hh. unfold st2, st1.
      cbn [history record_event emit]. by rewrite <- !app_assoc.
  - rewrite (analyze_token_address_users env update address u st Hu Hfree).
    by rewrite transport_up.
Qed.

End Success.

End MoreSessions.

Import Sample2.

Lemma busy_user_told_to_wait_witness :
  analyzing_users
    (analyze_token_address (env 4096 (analyzer_up (py "report")) transport_up)
       (text_update token) token busy).2
  = analyzing_users busy
  /\ history
       (analyze_token_address
          (env 4096 (analyzer_up (py "report")) transport_up)
          (text_update token) token busy).2
     = history busy ++ [ReplyText AlreadyInProgress].
Proof.
  apply (busy_user_told_to_wait
           (env 4096 (analyzer_up (py "report")) transport_up)
           (text_update token) token user busy).
  - reflexivity.
  - change (7 ∈ ({[7]} : gset Z)). by apply elem_of_singleton_2.
Defined.

Lemma guard_restored_after_session_witness :
  analyzing_users
    (analyze_token_address (env 4096 analyzer_down transport_up)
       (text_update token) token idle).2
  = analyzing_users idle.
Proof.
  apply (guard_restored_after_session
           (env 4096 analyzer_down transport_up) (text_update token) token
           user idle).
  - reflexivity.
  - apply not_elem_of_empty.
  - reflexivity.
Defined.

Lemma session_leaves_other_users_witness :
  8 ∈ analyzing_users
        (analyze_token_address
           (env 4096 (analyzer_up (py "report")) transport_drops_status)
           (text_update token) token idle).2
  <-> 8 ∈ analyzing_users idle.
Proof.
  apply (session_leaves_other_users
           (env 4096 (analyzer_up (py "report")) transport_drops_status)
           (text_update token) token 8 idle).
  discriminate.
Defined.

Lemma session_without_user_witness :
  history
    (analyze_token_address (env 4096 (analyzer_up (py "report")) transport_up)
       anonymous_update token idle).2
  = history idle ++ [ReplyText AnalysisErrorNotice]
  /\ analyzing_users
       (analyze_token_address
          (env 4096 (analyzer_up (py "report")) transport_up)
          anonymous_update token idle).2
     = analyzing_users idle.
Proof.
  apply (session_without_user
           (env 4096 (analyzer_up (py "report")) transport_up)
           anonymous_update token idle).
  reflexivity.
Defined.

Lemma session_contains_exceptions_witness :
  no_exception
    (analyze_token_address (env 4096 analyzer_down transport_up)
       (text_update token) token idle).1.
Proof.
  apply (session_contains_exceptions (env 4096 analyzer_down transport_up)
           (text_update token) token idle).
  intros h. reflexivity.
Defined.

Lemma invalid_text_rejected_witness :
  history
    (handle_message (env 4096 (analyzer_up (py "report")) transport_up)
       (text_update (py "hello")) idle).2
  = history idle ++ [ReplyText InvalidAddressPrompt]
  /\ analyzing_users
       (handle_message (env 4096 (analyzer_up (py "report")) transport_up)
          (text_update (py "hello")) idle).2
     = analyzing_users idle.
Proof.
  apply (invalid_text_rejected
           (env 4096 (analyzer_up (py "report")) transport_up)
           (text_update (py "hello")) idle).
  reflexivity.
Defined.

Lemma long_message_stops_at_failure_witness :
  history
    (send_long_message
       (env 200 (analyzer_up three_lines) transport_drops_messages)
       (text_update token) three_lines idle).2
  = history idle
    ++ chunk_events (text_update token) 0 [long_line]
    ++ [chunk_event (text_update token) 1 long_line;
        ReplyText SendErrorNotice].
Proof.
  apply (long_message_stops_at_failure
           (env 200 (analyzer_up three_lines) transport_drops_messages)
           (text_update token) three_lines idle [long_line] long_line
           [long_line] {| catchable := true; exn_text := py "Timed out" |}).
  - vm_compute. reflexivity.
  - intros [|k] e Hk; [|discriminate Hk]. injection Hk as <-. reflexivity.
  - reflexivity.
  - reflexivity.
Defined.

Lemma long_message_within_limit_witness :
  exists evs,
    history
      (send_long_message (env 200 (analyzer_up three_lines) transport_up)
         (text_update token) three_lines idle).2
    = history idle ++ evs
    /\ Forall (within_limit (200 - 100)) evs.
Proof.
  apply (long_message_within_limit
           (env 200 (analyzer_up three_lines) transport_up)
           (text_update token) three_lines idle).
  repeat constructor; vm_compute; discriminate.
Defined.

Lemma other_callback_ignored_witness :
  history
    (handle_callback_query
       (env 4096 (analyzer_up (py "report")) transport_up)
       (button_update (py "noop")) idle).2
  = history idle ++ [AnswerQuery]
  /\ analyzing_users
       (handle_callback_query
          (env 4096 (analyzer_up (py "report")) transport_up)
          (button_update (py "noop")) idle).2
     = analyzing_users idle.
Proof.
  apply (other_callback_ignored
           (env 4096 (analyzer_up (py "report")) transport_up)
           (button_update (py "noop")) idle).
  reflexivity.
Defined.

Lemma refresh_edits_in_place_witness :
  handle_refresh_callback (env 200 (analyzer_up three_lines) transport_up)
    (button_update (refresh_callback_data token)) token idle
  = (Ok tt,
     emit [EditQueryMessage (Refreshing token);
           AnalyzeToken token;
           EditQueryMessage (Plain three_lines)] idle).
Proof.
  apply (refresh_edits_in_place
           (env 200 (analyzer_up three_lines) transport_up)
           (button_update (refresh_callback_data token)) token three_lines
           three_lines three_lines idle).
  - intros h e. reflexivity.
  - reflexivity.
  - reflexivity.
  - reflexivity.
Defined.

Lemma refresh_failure_notice_witness :
  history
    (handle_refresh_callback (env 4096 analyzer_down transport_up)
       (button_update (refresh_callback_data token)) token idle).2
  = history idle
    ++ [EditQueryMessage (Refreshing token);
        AnalyzeToken token;
        EditQueryMessage RefreshErrorNotice].
Proof.
  apply (refresh_failure_notice (env 4096 analyzer_down transport_up)
           (button_update (refresh_callback_data token)) token api_error
           idle).
  - reflexivity.
  - reflexivity.
  - reflexivity.
Defined.

Lemma session_delivers_and_releases_witness :
  (exists panel,
     history
       (analyze_token_address
          (env 4096 (analyzer_up (py "report")) transport_up)
          (text_update token) token idle).2
     = history idle
       ++ [GuardAdd user; ReplyText (AnalyzingStatus token);
           AnalyzeToken token]
       ++ delivery_events 4096 chat (py "report")
       ++ panel ++ [GuardDiscard user]
     /\ (panel = []
         \/ exists rows,
              panel = [SendMessage chat QuickActions
                         (Some (rows ++ [[CallbackButton
                                            (refresh_callback_data
                                               token)]]))]))
  /\ analyzing_users
       (analyze_token_address
          (env 4096 (analyzer_up (py "report")) transport_up)
          (text_update token) token idle).2
     = analyzing_users idle.
Proof.
  apply (session_delivers_and_releases
           (env 4096 (analyzer_up (py "report")) transport_up)
           (fun h e => eq_refl) (text_update token) token user
           (py "report") (py "report") (py "report") idle).
  - reflexivity.
  - apply not_elem_of_empty.
  - reflexivity.
  - reflexivity.
  - reflexivity.
Defined.

(** ** Delivery and the analyze command *)

(** C4, as amended.  While the transport accepts every message, a formatted
    text is delivered by the events of [delivery_events]: as one reply to
    the user's message when it fits in [MAX_MESSAGE_LENGTH]; else it is cut
    by [split_message] with the limit [MAX_MESSAGE_LENGTH - 100], the first
    chunk goes out as a reply and the others, in order, as new messages.
    Nothing follows but the action panel, one new message, if it is sent at
    all; none of these events edits a message, so the status placeholder
    stays as it is. *)
Theorem delivery_by_reply {AnalysisResult Response Chain : Type}
    (env : Env AnalysisResult Response Chain) (update : Update)
    (response : Response) (address message : str) (st : State) :
  (forall h e, transport env h e = None) ->
  to_telegram_message env response = Ok message ->
  exists panel,
    history (send_analysis_results env update response address st).2
    = history st
      ++ delivery_events (MAX_MESSAGE_LENGTH env) (effective_chat_id update)
           message
      ++ panel
    /\ (panel = []
        \/ exists rows,
             panel = [SendMessage (effective_chat_id update) QuickActions
                        (Some (rows ++ [[CallbackButton
                                           (refresh_callback_data address)]]))])
    /\ Forall (fun e => is_edit e = false)
         (delivery_events (MAX_MESSAGE_LENGTH env) (effective_chat_id update)
            message
          ++ panel).
Proof.
  intros Hup Hm.
  destruct (send_analysis_results_exact env Hup update response address
              message st Hm) as (o & st' & panel & -> & Hh & Hp & _).
  exists panel. split; [exact Hh|]. split; [exact Hp|].
  apply Forall_app. split.
  - unfold delivery_events.
    destruct (len message >? MAX_MESSAGE_LENGTH env); [|by repeat constructor].
    destruct (split_message message (MAX_MESSAGE_LENGTH env - 100))
      as [|c cs]; [constructor|].
    constructor; [done|]. induction cs as [|c' cs IH]; by constructor.
  - destruct Hp as [->|(rows & ->)]; by repeat constructor.
Qed.

Lemma delivery_by_reply_witness :
  exists panel,
    history
      (send_analysis_results
         (env 4096 (analyzer_up (py "report")) transport_up)
         (text_update token) (py "report") token idle).2
    = history idle
      ++ delivery_events 4096 chat (py "report")
      ++ panel
    /\ (panel = []
        \/ exists rows,
             panel = [SendMessage chat QuickActions
                        (Some (rows ++ [[CallbackButton
                                           (refresh_callback_data token)]]))])
    /\ Forall (fun e => is_edit e = false)
         (delivery_events 4096 chat (py "report") ++ panel).
Proof.
  apply (delivery_by_reply
           (env 4096 (analyzer_up (py "report")) transport_up)
           (text_update token) (py "report") token (py "report") idle).
  - intros h e. reflexivity.
  - reflexivity.
Defined.

(** C10.  [/analyze] with one argument or more runs the session on the
    first argument and on nothing else, whatever the other arguments are.
    It does what [analyze_token_address] does on that argument; all its
    effects are those of a session for that address, so the analyzer is
    called on no other argument and the usage notice is not sent; for a
    user who is not in the set the user is added and the status placeholder
    for the first argument is sent, and once that is out the analyzer is
    called on the first argument.  Without an argument the usage notice is
    the only effect. *)
Theorem analyze_command_first_argument {AnalysisResult Response Chain : Type}
    (env : Env AnalysisResult Response Chain) (update : Update)
    (address : str) (extra : list str) (st : State) :
  analyze_command env update (address :: extra) st
  = analyze_token_address env update address st
  /\ (exists evs,
        history (analyze_command env update (address :: extra) st).2
        = history st ++ evs
        /\ Forall (session_event address) evs
        /\ ~ In (ReplyText UsagePrompt) evs)
  /\ (forall u,
        effective_user update = Some u ->
        u ∉ analyzing_users st ->
        exists rest,
          history (analyze_command env update (address :: extra) st).2
          = history st
            ++ GuardAdd u :: ReplyText (AnalyzingStatus address) :: rest
          /\ (transport env (history st ++ [GuardAdd u])
                (ReplyText (AnalyzingStatus address)) = None ->
              exists rest', rest = AnalyzeToken address :: rest'))
  /\ history (analyze_command env update [] st).2
     = history st ++ [ReplyText UsagePrompt].
Proof.
  assert (E : analyze_command env update (address :: extra) st
              = analyze_token_address env update address st) by reflexivity.
  split; [exact E|]. rewrite E. split; [|split].
  - destruct (analyze_token_address_appends env update address st)
      as (evs & He & Hf).
    exists evs. split; [exact He|]. split; [exact Hf|]. intros Hin.
    rewrite List.Forall_forall in Hf. apply (Hf _ Hin).
  - intros u Hu Hfree.
    destruct (analyze_token_address_accepted env update address u st
                Hu Hfree) as (rest & Hr).
    exists rest. split; [exact Hr|]. intros Hup.
    destruct (analyze_token_address_analyzes env update address u st
                Hu Hfree Hup) as (rest' & Hr').
    exists rest'. rewrite Hr in Hr'. apply app_inv_head in Hr'.
    by injection Hr'.
  - unfold analyze_command, reply_text, perform, mbind, M_bind.
    by destruct (transport env (history st) _).
Qed.

Lemma analyze_command_first_argument_witness :
  exists rest,
    history
      (analyze_command (env 4096 (analyzer_up (py "report")) transport_up)
         (text_update []) [token; py "second"; py "third"] idle).2
    = history idle
      ++ GuardAdd user :: ReplyText (AnalyzingStatus token)
      :: AnalyzeToken token :: rest.
Proof.
  destruct (analyze_command_first_argument
              (env 4096 (analyzer_up (py "report")) transport_up)
              (text_update []) token [py "second"; py "third"] idle)
    as (_ & _ & H & _).
  destruct (H user eq_refl (not_elem_of_empty user)) as (rest & Hr & Hn).
  destruct (Hn eq_refl) as (rest' & ->).
  exists rest'. exact Hr.
Defined.
